(** * SevSeg_MAX7219: a shallow embedding of the MAX7219 seven-segment driver

    The development follows [SevSeg_MAX7219.cpp] and [SevSeg_MAX7219.h].

    Conventions of the embedding.
    - C++ integers are [Z]; a conversion to [byte] (= [uint8_t]) is [to_byte],
      a conversion to [char] (signed, 8 bits, as on the AVR) is [to_char].
      Every function converts its parameters to their declared types on
      entry, as the call does in C++.
    - The object is the record [SevSeg]: the members [digits], [pos],
      [autoscrolling], [buf], and two fields that are not members:
      [spi], the frames (opcode, data) that [writeSPI] has shifted out, in
      order, and [stray], a monitor that records every store whose index
      falls outside its array.
    - The source checks no index. A store outside its array is recorded in
      [stray] and the modelled objects are left as they were: that is what
      the code does to them when the store lands past the object (an index
      of [buf] above 7) or on the stack (index -1 of [decimal]). At a
      negative index of [buf] the code overwrites other members of the
      object, which the model does not follow, so the properties are stated
      for indices kept in range by their hypotheses or for runs that leave
      the monitor as it was.
    - A load of [buf] outside the array reads memory the program never
      initialised: its value is indeterminate. [pat0] stands for the
      indeterminate bytes one call may read, one byte per address: byte 0 is
      the content of [lookup]'s local [pat], which is read before it is
      assigned, and byte j is the content found at [buf[j]] for j outside
      the array. The locals [trimStr] and [decimal] are loaded through
      [load], which has no value outside the array or for a [decimal] entry
      that was never assigned; the second loop of [displayText] is proved to
      load inside and assigned entries only.
    - An [int] has 16 bits, as on the AVR ([to_int]). [displayText] takes
      [strlen(text)] to be the length of the text, which is what
      [int s = strlen(text)] holds for a text of at most 32767 characters
      ([fits_int], [to_int_fits]); the properties of what it displays have
      that hypothesis. *)

From Stdlib Require Import ZArith Lia Bool.
From stdpp Require Import base list strings.

Local Open Scope Z_scope.

(** ** Integer conversions *)

Definition to_byte (z : Z) : Z := z mod 256.

Definition to_char (z : Z) : Z := (z + 128) mod 256 - 128.

Definition to_int (z : Z) : Z := (z + 32768) mod 65536 - 32768.

Definition is_byte (z : Z) : Prop := 0 <= z < 256.

Definition is_char (z : Z) : Prop := -128 <= z < 128.

#[global] Instance is_byte_dec z : Decision (is_byte z).
Proof. unfold is_byte. apply _. Defined.

#[global] Instance is_char_dec z : Decision (is_char z).
Proof. unfold is_char. apply _. Defined.

(** Characters of a string literal as [char] values. *)
Definition char_of_ascii (a : Ascii.ascii) : Z :=
  to_char (Z.of_N (Ascii.N_of_ascii a)).

Fixpoint cstring (s : string) : list Z :=
  match s with
  | EmptyString => []
  | String a rest => char_of_ascii a :: cstring rest
  end.

(** ** Checked array accesses *)

Inductive Array := A_buf | A_decimal | A_trimStr.

Inductive Fault :=
| OutOfBounds (a : Array) (i : Z)
| Uninitialised (a : Array) (i : Z).

Inductive result (A : Type) :=
| Ok (a : A)
| Err (f : Fault).

Arguments Ok {A} a.
Arguments Err {A} f.

Definition bind {A B} (m : result A) (k : A -> result B) : result B :=
  match m with
  | Ok a => k a
  | Err f => Err f
  end.

Notation "'let*' x := m 'in' k" := (bind m (fun x => k))
  (at level 10, x name, m at level 100, k at level 200).

Definition in_bounds {A} (l : list A) (i : Z) : bool :=
  (0 <=? i) && (i <? Z.of_nat (length l)).

Definition load {A} (a : Array) (l : list A) (i : Z) : result A :=
  match (if in_bounds l i then l !! Z.to_nat i else None) with
  | Some v => Ok v
  | None => Err (OutOfBounds a i)
  end.

(** A store gives the new array and what the monitor records. *)
Definition store {A} (a : Array) (l : list A) (i : Z) (v : A)
  : list A * list (Array * Z) :=
  if in_bounds l i then (<[Z.to_nat i := v]> l, []) else (l, [(a, i)]).

(** Byte [j] of the indeterminate memory [pat0], as a [char]; the loads of
    [write] have a [byte] for [j]. *)
Definition indeterminate (pat0 : Z) (j : Z) : Z :=
  to_char (Z.shiftr pat0 (8 * j)).

(** [buf[i]] as an rvalue: the entry, or what memory holds at that place
    outside the array. *)
Definition load_buf (pat0 : Z) (l : list Z) (i : Z) : Z :=
  match (if in_bounds l i then l !! Z.to_nat i else None) with
  | Some v => v
  | None => indeterminate pat0 i
  end.

Module SevSeg_MAX7219.

(** ** Constants *)

Definition MAX7219_REG_NOOP : Z := 0x00.
Definition MAX7219_REG_DECODE : Z := 0x09.
Definition MAX7219_REG_INTENSITY : Z := 0x0a.
Definition MAX7219_REG_SCAN_LIMIT : Z := 0x0b.
Definition MAX7219_REG_SHUTDOWN : Z := 0x0c.
Definition MAX7219_REG_DISPLAY_TEST : Z := 0x0f.

Definition INTENSITY_MIN : Z := 0x00.
Definition INTENSITY_MAX : Z := 0x0f.

(** ** The font table: 94 entries, for the characters space to closing brace.
    MSB is segment A, LSB the decimal point. The source writes most entries
    in binary; they are in hexadecimal here, one source line per line. *)

Definition pattern : list Z :=
  [ 0x00; 0x61; 0x44; 0x6e; 0x00;    (* space, exclamation mark .. dollar *)
    0x00; 0x00; 0x40; 0x9c; 0xf0;    (* percent .. closing parenthesis *)
    0x00; 0x00; 0x00; 0x02; 0x01;    (* asterisk .. full stop *)
    0x00;                            (* slash *)
    0xfc; 0x60; 0xda; 0xf2; 0x66;    (* 0-4 *)
    0xb6; 0xbe; 0xe0; 0xfe; 0xf6;    (* 5-9 *)
    0x00; 0x00; 0x00; 0x12; 0x00;    (* colon .. greater-than *)
    0xcb; 0xfa;                      (* question mark, at sign *)
    0xee; 0xfe; 0x9c; 0x7a; 0x9e;    (* A-E *)
    0x8e; 0xbc; 0x6e; 0x60; 0x70;    (* F-J *)
    0xae; 0x1c; 0xa8; 0xec; 0xfc;    (* K-O *)
    0xce; 0xe6; 0x0a; 0xb6; 0x1e;    (* P-T *)
    0x7c; 0x00; 0x00; 0x00; 0x76;    (* U-Y *)
    0xda;                            (* Z *)
    0x9c; 0x04; 0xf0; 0x00; 0x10;    (* opening bracket .. underscore *)
    0x40;                            (* backquote *)
    0xfa; 0x3e; 0x1a; 0x7a; 0xde;    (* a-e *)
    0x8e; 0xf6; 0x2e; 0x08; 0x30;    (* f-j *)
    0xae; 0x0c; 0xa8; 0x2a; 0x3a;    (* k-o *)
    0xce; 0xe6; 0x0a; 0xb6; 0x1e;    (* p-t *)
    0x38; 0x00; 0x00; 0x00; 0x76;    (* u-y *)
    0xda;                            (* z *)
    0x9c; 0x0c; 0xf0 ].              (* opening brace, bar, closing brace *)

(** [pgm_read_byte_near (pattern + i)]. *)
Definition pgm_read_byte_near (i : Z) : Z :=
  default 0 (pattern !! Z.to_nat i).

(** ** lookup

    [pat0] is the indeterminate content of the local [pat], which the source
    declares without an initialiser and assigns only inside the range
    check. *)
Definition lookup (pat0 : Z) (c : Z) (dp : bool) : Z :=
  let c := to_char c in
  let pat := to_byte pat0 in
  let pat :=
    if (32 <=? c) && (c <=? 125) then
      let pat := pgm_read_byte_near (c - 32) in
      to_byte (Z.lor (Z.shiftr pat 1) (Z.shiftl pat 7))
    else pat in
  let pat := if dp then to_byte (Z.lor pat 0x80) else pat in
  pat.

(** Rotation of an 8-bit value right by one, in the words of the
    specification: the low bit moves to the high bit, the others move one
    place down. *)
Definition rotr8 (b : Z) : Z := b / 2 + (b mod 2) * 128.

(** ** The object *)

Record SevSeg := mkSevSeg {
  digits : Z;                 (* byte: number of digits *)
  pos : Z;                    (* byte: virtual cursor position *)
  autoscrolling : bool;       (* scroll at the end of the display *)
  buf : list Z;               (* char buf[8]: current 7 segment contents *)
  spi : list (Z * Z);         (* frames (opcode, data) sent so far *)
  stray : list (Array * Z)    (* stores that fell outside their array *)
}.

Definition set_pos (p : Z) (s : SevSeg) : SevSeg :=
  mkSevSeg (digits s) p (autoscrolling s) (buf s) (spi s) (stray s).

Definition set_autoscrolling (a : bool) (s : SevSeg) : SevSeg :=
  mkSevSeg (digits s) (pos s) a (buf s) (spi s) (stray s).

Definition log_stray (m : list (Array * Z)) (s : SevSeg) : SevSeg :=
  mkSevSeg (digits s) (pos s) (autoscrolling s) (buf s) (spi s) (stray s ++ m).

(** [buf[i] = v]. *)
Definition store_buf (i v : Z) (s : SevSeg) : SevSeg :=
  let r := store A_buf (buf s) i v in
  mkSevSeg (digits s) (pos s) (autoscrolling s) (r.1) (spi s) (stray s ++ r.2).

(** The constructor: [digits(4), pos(0), autoscrolling(false)]; [buf] is not
    initialised and holds [buf0]. The three [pinMode] calls leave no trace
    in the model. *)
Definition construct (buf0 : list Z) : SevSeg :=
  mkSevSeg 4 0 false buf0 [] [].

(** One frame: chip select low, opcode and data shifted out MSB first, chip
    select high. *)
Definition writeSPI (opcode data : Z) (s : SevSeg) : SevSeg :=
  let opcode := to_byte opcode in
  let data := to_byte data in
  mkSevSeg (digits s) (pos s) (autoscrolling s) (buf s)
           (spi s ++ [(opcode, data)]) (stray s).

(** [for (int i = 0; i < 8; i++) { buf[i] = 0x00; writeSPI(i + 1, 0x00); }],
    [n] iterations from [i]. *)
Fixpoint clear_loop (n : nat) (i : Z) (s : SevSeg) : SevSeg :=
  match n with
  | O => s
  | S n' => clear_loop n' (i + 1) (writeSPI (i + 1) 0x00 (store_buf i 0x00 s))
  end.

Definition clear (s : SevSeg) : SevSeg :=
  set_pos 0 (clear_loop 8 0 s).

Definition display (s : SevSeg) : SevSeg := writeSPI MAX7219_REG_SHUTDOWN 1 s.

Definition noDisplay (s : SevSeg) : SevSeg := writeSPI MAX7219_REG_SHUTDOWN 0 s.

Definition autoScroll (s : SevSeg) : SevSeg := set_autoscrolling true s.

Definition noAutoScroll (s : SevSeg) : SevSeg := set_autoscrolling false s.

Definition testMode (s : SevSeg) : SevSeg :=
  writeSPI MAX7219_REG_DISPLAY_TEST 1 s.

Definition noTestMode (s : SevSeg) : SevSeg :=
  writeSPI MAX7219_REG_DISPLAY_TEST 0 s.

Definition brightness (brightness : Z) (s : SevSeg) : SevSeg :=
  let brightness := to_byte brightness in
  let brightness := Z.land brightness 0x0f in
  writeSPI MAX7219_REG_INTENSITY brightness s.

(** [begin(byte digits)]: the parameter has the name of the member and hides
    it, so [if (digits < 4) digits = 4;] assigns the parameter. It is
    [digits_arg] here; the member [digits s] is not assigned. *)
Definition begin (digits_arg : Z) (s : SevSeg) : SevSeg :=
  let digits_arg := to_byte digits_arg in
  (* digitalWrite(csPin, HIGH) *)
  let digits_arg := if digits_arg <? 4 then 4 else digits_arg in
  let s := writeSPI MAX7219_REG_SCAN_LIMIT digits_arg s in
  let s := writeSPI MAX7219_REG_DECODE 0x00 s in
  let s := clear s in
  let s := noTestMode s in
  let s := brightness INTENSITY_MAX s in
  display s.

Definition home (s : SevSeg) : SevSeg := set_pos 0 s.

Definition setCursor (x y : Z) (s : SevSeg) : SevSeg :=
  let x := to_byte x in
  set_pos x s.

Definition displayChar (pat0 : Z) (digit value : Z) (dp : bool) (s : SevSeg)
  : SevSeg :=
  let digit := to_char digit in
  let value := to_char value in
  let code := lookup pat0 value dp in
  let s := store_buf digit (to_char code) s in
  writeSPI (digit + 1) code s.

(** [for (byte i = 0; i < digits - 1; i++) { buf[i] = buf[i + 1];
    writeSPI(i + 1, buf[i]); }], [n] iterations from [i]. The frame carries
    the value just stored, wherever [buf[i]] is. *)
Fixpoint scroll_loop (pat0 : Z) (n : nat) (i : Z) (s : SevSeg) : SevSeg :=
  match n with
  | O => s
  | S n' =>
      let v := load_buf pat0 (buf s) (i + 1) in
      let s := store_buf i v s in
      scroll_loop pat0 n' (to_byte (i + 1)) (writeSPI (i + 1) v s)
  end.

(** [write] returns the object and the [size_t] result, which is always 1.
    In [buf[p] |= 0x80; writeSPI(p + 1, buf[p]);] the frame carries the value
    just stored, wherever [buf[p]] is. *)
Definition write (pat0 : Z) (ch : Z) (s : SevSeg) : result (SevSeg * Z) :=
  let ch := to_byte ch in
  if ch =? 46 then
    let p := to_byte (if 0 <? pos s then pos s - 1 else 0) in
    let v := to_char (Z.lor (load_buf pat0 (buf s) p) 0x80) in
    let s := store_buf p v s in
    Ok (writeSPI (p + 1) v s, 1)
  else if autoscrolling s && (pos s =? digits s) then
    let s := scroll_loop pat0 (Z.to_nat (digits s - 1)) 0 s in
    Ok (displayChar pat0 (digits s - 1) ch false s, 1)
  else
    let p := pos s in
    let s := set_pos (to_byte (pos s + 1)) s in
    Ok (displayChar pat0 p ch false s, 1).

(** The locals of [displayText]: [char trimStr[16] = ""] is all zero,
    [bool decimal[16]] is not initialised ([None] until assigned), and
    [l_stray] is the monitor for the two arrays. *)
Record Locals := mkLocals {
  trimStr : list Z;
  decimal : list (option bool);
  y : Z;
  l_stray : list (Array * Z)
}.

Definition locals0 : Locals :=
  mkLocals (replicate 16 0) (replicate 16 None) 0 [].

(** The body of the first loop for the character [c = text[x]]. *)
Definition displayText_step1 (c : Z) (k : Locals) : Locals :=
  if c =? 46 then
    let d := store A_decimal (decimal k) (y k - 1) (Some true) in
    mkLocals (trimStr k) (d.1) (y k) (l_stray k ++ d.2)
  else
    let t := store A_trimStr (trimStr k) (y k) c in
    let d := store A_decimal (decimal k) (y k) (Some false) in
    mkLocals (t.1) (d.1) (y k + 1) (l_stray k ++ t.2 ++ d.2).

Fixpoint displayText_loop1 (text : list Z) (k : Locals) : Locals :=
  match text with
  | [] => k
  | c :: rest => displayText_loop1 rest (displayText_step1 c k)
  end.

Definition load_bool (a : Array) (l : list (option bool)) (i : Z)
  : result bool :=
  let* v := load a l i in
  match v with
  | Some b => Ok b
  | None => Err (Uninitialised a i)
  end.

(** The second loop, [n] iterations from [x]; [pats x] is the indeterminate
    content of [lookup]'s local in the call for slot [x]. *)
Fixpoint displayText_loop2 (pats : Z -> Z) (rightjustify : bool) (k : Locals)
    (n : nat) (x : Z) (s : SevSeg) : result SevSeg :=
  match n with
  | O => Ok s
  | S n' =>
      let* c := load A_trimStr (trimStr k) x in
      let* d := load_bool A_decimal (decimal k) x in
      let s :=
        if negb rightjustify then displayChar (pats x) x c d s
        else displayChar (pats x) (digits s - y k + x) c d s in
      displayText_loop2 pats rightjustify k n' (x + 1) s
  end.

(** [int s = strlen(text)] needs a length that an [int] can hold, 32767 at
    most where [int] has 16 bits: a longer text makes [s] negative, and
    neither loop runs. *)
Definition fits_int (text : list Z) : Prop :=
  Z.of_nat (length text) <= 32767.

(** [text] holds the characters before the terminating zero, so
    [strlen(text)] is its length; the definition stands for the code on the
    texts with [fits_int], where the conversion to [int] changes nothing. *)
Definition displayText (pats : Z -> Z) (text : list Z) (rightjustify : bool)
    (s : SevSeg) : result SevSeg :=
  let len := Z.of_nat (length text) in
  let len := if 16 <? len then 16 else len in
  let k := displayText_loop1 (take (Z.to_nat len) text) locals0 in
  let k :=
    if digits s <? y k then mkLocals (trimStr k) (decimal k) (digits s) (l_stray k)
    else k in
  displayText_loop2 pats rightjustify k (Z.to_nat (y k)) 0
                    (log_stray (l_stray k) s).

(** ** Sequences of operations *)

Inductive Op :=
| OpBegin (n : Z)
| OpClear
| OpBrightness (b : Z)
| OpDisplay
| OpNoDisplay
| OpHome
| OpSetCursor (x y : Z)
| OpAutoScroll
| OpNoAutoScroll
| OpDisplayChar (pat0 digit value : Z) (dp : bool)
| OpDisplayText (pats : Z -> Z) (text : list Z) (rightjustify : bool)
| OpTestMode
| OpNoTestMode
| OpWrite (pat0 ch : Z).

Definition exec (o : Op) (s : SevSeg) : result SevSeg :=
  match o with
  | OpBegin n => Ok (begin n s)
  | OpClear => Ok (clear s)
  | OpBrightness b => Ok (brightness b s)
  | OpDisplay => Ok (display s)
  | OpNoDisplay => Ok (noDisplay s)
  | OpHome => Ok (home s)
  | OpSetCursor x y => Ok (setCursor x y s)
  | OpAutoScroll => Ok (autoScroll s)
  | OpNoAutoScroll => Ok (noAutoScroll s)
  | OpDisplayChar pat0 digit value dp => Ok (displayChar pat0 digit value dp s)
  | OpDisplayText pats text rj => displayText pats text rj s
  | OpTestMode => Ok (testMode s)
  | OpNoTestMode => Ok (noTestMode s)
  | OpWrite pat0 ch => let* r := write pat0 ch s in Ok (r.1)
  end.

Fixpoint run (ops : list Op) (s : SevSeg) : result SevSeg :=
  match ops with
  | [] => Ok s
  | o :: rest => let* s := exec o s in run rest s
  end.

(** ** The digit registers, read off the frames *)

(** The data byte of the last frame for register [r], if there is one. *)
Definition last_sent (r : Z) (frames : list (Z * Z)) : option Z :=
  foldl (fun acc f => if f.1 =? r then Some (f.2) else acc) None frames.

(** The frames that send [data] to consecutive registers from [r] on. *)
Fixpoint frames_from (r : Z) (data : list Z) : list (Z * Z) :=
  match data with
  | [] => []
  | d :: rest => (r, to_byte d) :: frames_from (r + 1) rest
  end.

(** Entry [i] of [buf] holds, as an 8-bit pattern, what digit register
    [i + 1] was last sent, for every digit register that was written. *)
Definition mirrors (s : SevSeg) : Prop :=
  forall i d, 0 <= i < 8 ->
    last_sent (i + 1) (spi s) = Some d ->
    to_byte <$> (buf s !! Z.to_nat i) = Some d.

(** ** displayText in the words of the specification *)

(** A slot is a character with its decimal-point flag. A dot marks the most
    recently appended slot, if there is one; any other character is appended
    with the flag off. *)
Definition mark_last (slots : list (Z * bool)) : list (Z * bool) :=
  alter (fun sl => (sl.1, true)) (length slots - 1)%nat slots.

Fixpoint compact (text : list Z) (slots : list (Z * bool)) : list (Z * bool) :=
  match text with
  | [] => slots
  | c :: rest =>
      if c =? 46 then compact rest (mark_last slots)
      else compact rest (slots ++ [(c, false)])
  end.

(** Slot [i] goes to digit [i], or to [digitCount - slotCount + i] when right
    justified; [slots] are the slots from number [i] on. *)
Fixpoint render (pats : Z -> Z) (rightjustify : bool) (digitCount slotCount : Z)
    (i : Z) (slots : list (Z * bool)) (s : SevSeg) : SevSeg :=
  match slots with
  | [] => s
  | sl :: rest =>
      let target := if rightjustify then digitCount - slotCount + i else i in
      render pats rightjustify digitCount slotCount (i + 1) rest
             (displayChar (pats i) target (sl.1) (sl.2) s)
  end.

Definition displayText_spec (pats : Z -> Z) (text : list Z) (rightjustify : bool)
    (s : SevSeg) : SevSeg :=
  let slots := take (Z.to_nat (digits s)) (compact (take 16 text) []) in
  render pats rightjustify (digits s) (Z.of_nat (length slots)) 0 slots s.

(** The dots in front of the first other character. *)
Fixpoint leading_dots (text : list Z) : nat :=
  match text with
  | [] => O
  | c :: rest => if c =? 46 then S (leading_dots rest) else O
  end.

(** What the first loop records in the monitor: one store at index -1 of
    [decimal] for every dot met while there is no slot yet. *)
Definition stray_dots (slots : list (Z * bool)) (text : list Z)
  : list (Array * Z) :=
  match slots with
  | [] => replicate (leading_dots text) (A_decimal, -1)
  | _ :: _ => []
  end.

(** The locals hold the slots: [y] counts them, and slot [i] has its
    character in [trimStr[i]] and its flag, assigned, in [decimal[i]]. *)
Definition represents (k : Locals) (slots : list (Z * bool)) : Prop :=
  y k = Z.of_nat (length slots) /\
  length (trimStr k) = 16%nat /\
  length (decimal k) = 16%nat /\
  forall i sl, slots !! i = Some sl ->
    trimStr k !! i = Some (sl.1) /\ decimal k !! i = Some (Some (sl.2)).

(** ** Streams of characters *)

(** The calls [write(text[0])], [write(text[1])], ... in order, as printing
    a string through the [Print] interface makes them; [pats i] is the
    indeterminate content of [lookup]'s local in the call for character
    number [i]. *)
Fixpoint writes (pats : Z -> Z) (i : Z) (text : list Z) (s : SevSeg)
  : result SevSeg :=
  match text with
  | [] => Ok s
  | c :: rest => let* r := write (pats i) c s in writes pats (i + 1) rest (r.1)
  end.

(** What [displayChar] stores for the slots from number [i] on, and the
    frames it sends for them when slot [i] goes to digit [off + i]. *)
Fixpoint slot_glyphs (pats : Z -> Z) (i : Z) (slots : list (Z * bool)) : list Z :=
  match slots with
  | [] => []
  | sl :: rest =>
      to_char (lookup (pats i) (sl.1) (sl.2)) :: slot_glyphs pats (i + 1) rest
  end.

Fixpoint slot_frames (pats : Z -> Z) (off i : Z) (slots : list (Z * bool))
  : list (Z * Z) :=
  match slots with
  | [] => []
  | sl :: rest =>
      (off + i + 1, lookup (pats i) (sl.1) (sl.2))
        :: slot_frames pats off (i + 1) rest
  end.

(** A text without dots as slots. *)
Definition plain_slots (text : list Z) : list (Z * bool) :=
  map (fun c => (c, false)) text.

(** The operations that configure the chip or move the cursor, as opposed to
    those that display something. *)
Definition control_op (o : Op) : bool :=
  match o with
  | OpBrightness _ | OpDisplay | OpNoDisplay | OpHome | OpSetCursor _ _
  | OpAutoScroll | OpNoAutoScroll | OpTestMode | OpNoTestMode => true
  | OpBegin _ | OpClear | OpDisplayChar _ _ _ _ | OpDisplayText _ _ _
  | OpWrite _ _ => false
  end.

End SevSeg_MAX7219.

Import SevSeg_MAX7219.

(** * Properties *)

(** ** Bytes and characters *)

(** A decidable property of all 256 bytes is settled by running through
    them. *)
Lemma Forall_byte (P : Z -> Prop) `{!forall x, Decision (P x)} :
  bool_decide (Forall P (seqZ 0 256)) = true ->
  forall x, is_byte x -> P x.
Proof.
  intros Hall x Hx. apply bool_decide_eq_true in Hall.
  rewrite Forall_seqZ in Hall. apply Hall. unfold is_byte in Hx. lia.
Qed.

Lemma to_int_fits (text : list Z) :
  fits_int text -> to_int (Z.of_nat (length text)) = Z.of_nat (length text).
Proof.
  unfold fits_int, to_int. intros H. Z.div_mod_to_equations. lia.
Qed.

Lemma to_int_too_long (text : list Z) :
  32768 <= Z.of_nat (length text) <= 65535 ->
  to_int (Z.of_nat (length text)) < 0.
Proof.
  unfold to_int. intros H. Z.div_mod_to_equations. lia.
Qed.

Lemma to_byte_is_byte z : is_byte (to_byte z).
Proof. unfold is_byte, to_byte. apply Z.mod_pos_bound. lia. Qed.

Lemma to_char_is_char z : is_char (to_char z).
Proof.
  unfold is_char, to_char.
  pose proof (Z.mod_pos_bound (z + 128) 256). lia.
Qed.

Lemma to_byte_small z : is_byte z -> to_byte z = z.
Proof. intros H. apply Z.mod_small. exact H. Qed.

Lemma to_char_small z : is_char z -> to_char z = z.
Proof.
  unfold is_char, to_char. intros H. rewrite Z.mod_small; lia.
Qed.

(** Going through [char] does not change the 8-bit pattern. *)
Lemma to_byte_to_char z : to_byte (to_char z) = to_byte z.
Proof.
  unfold to_byte, to_char.
  rewrite Zminus_mod, Z.mod_mod by lia.
  rewrite <- Zminus_mod. f_equal. lia.
Qed.

Lemma to_char_to_byte z : to_char (to_byte z) = to_char z.
Proof.
  unfold to_byte, to_char. f_equal.
  rewrite Zplus_mod, Z.mod_mod by lia.
  rewrite <- Zplus_mod. reflexivity.
Qed.

Lemma to_byte_land z : to_byte z = Z.land z 255.
Proof.
  unfold to_byte. change 255 with (Z.ones 8). rewrite Z.land_ones by lia.
  reflexivity.
Qed.

(** Setting bit 7 commutes with the conversion to a byte, also for a
    negative [char]. *)
Lemma to_byte_lor_0x80 z : to_byte (Z.lor z 0x80) = Z.lor (to_byte z) 0x80.
Proof. rewrite !to_byte_land, Z.land_lor_distr_l. reflexivity. Qed.

Lemma lor_0x80_is_byte z : is_byte z -> is_byte (Z.lor z 0x80).
Proof.
  intros H. rewrite <- (to_byte_small z H), <- to_byte_lor_0x80.
  apply to_byte_is_byte.
Qed.

(** ** The font table *)

Lemma pattern_length : length pattern = 94%nat.
Proof. reflexivity. Qed.

Lemma pattern_bytes : Forall is_byte pattern.
Proof.
  apply (bool_decide_eq_true_1 (Forall is_byte pattern)).
  vm_compute. reflexivity.
Qed.

Lemma pattern_entry c :
  32 <= c <= 125 ->
  exists e, pattern !! Z.to_nat (c - 32) = Some e /\ is_byte e /\
            pgm_read_byte_near (c - 32) = e.
Proof.
  intros Hc.
  destruct (lookup_lt_is_Some_2 pattern (Z.to_nat (c - 32))) as [e He].
  { rewrite pattern_length. lia. }
  exists e. split; [exact He|]. split.
  - eapply Forall_lookup_1; [apply pattern_bytes | exact He].
  - unfold pgm_read_byte_near. rewrite He. reflexivity.
Qed.

(** The source's [(pat >> 1) | (pat << 7)], stored back into a byte, is the
    rotation. *)
Lemma rotate_is_rotr8 e :
  is_byte e ->
  to_byte (Z.lor (Z.shiftr e 1) (Z.shiftl e 7)) = rotr8 e.
Proof.
  revert e.
  apply (Forall_byte
           (fun e => to_byte (Z.lor (Z.shiftr e 1) (Z.shiftl e 7)) = rotr8 e)).
  vm_compute. reflexivity.
Qed.

Lemma rotr8_bits e :
  is_byte e ->
  is_byte (rotr8 e) /\
  Z.testbit (rotr8 e) 7 = Z.testbit e 0 /\
  forall i, 0 <= i < 7 -> Z.testbit (rotr8 e) i = Z.testbit e (i + 1).
Proof.
  intros He.
  assert (is_byte (rotr8 e) /\
          Z.testbit (rotr8 e) 7 = Z.testbit e 0 /\
          Forall (fun i => Z.testbit (rotr8 e) i = Z.testbit e (i + 1))
                 (seqZ 0 7)) as (Hb & H7 & Hi).
  { revert e He.
    apply (Forall_byte
             (fun e => is_byte (rotr8 e) /\
                       Z.testbit (rotr8 e) 7 = Z.testbit e 0 /\
                       Forall (fun i => Z.testbit (rotr8 e) i =
                                        Z.testbit e (i + 1)) (seqZ 0 7))).
    vm_compute. reflexivity. }
  split; [exact Hb|]. split; [exact H7|].
  intros i Hr. rewrite Forall_seqZ in Hi. apply Hi. lia.
Qed.

(** ** lookup *)

Lemma lookup_in_range pat0 c dp :
  32 <= c <= 125 ->
  lookup pat0 c dp =
  if dp then Z.lor (rotr8 (pgm_read_byte_near (c - 32))) 0x80
  else rotr8 (pgm_read_byte_near (c - 32)).
Proof.
  intros Hc. unfold lookup.
  rewrite (to_char_small c) by (unfold is_char; lia).
  replace ((32 <=? c) && (c <=? 125)) with true
    by (symmetry; apply andb_true_iff; lia).
  destruct (pattern_entry c Hc) as (e & _ & He & ->).
  rewrite (rotate_is_rotr8 e He).
  destruct dp; [|reflexivity].
  apply to_byte_small, lor_0x80_is_byte. apply (rotr8_bits e He).
Qed.

(** Outside the table the result is whatever [pat] held. *)
Lemma lookup_out_of_range pat0 c dp :
  is_char c -> c < 32 \/ 125 < c ->
  lookup pat0 c dp =
  if dp then Z.lor (to_byte pat0) 0x80 else to_byte pat0.
Proof.
  intros Hc Hout. unfold lookup. rewrite (to_char_small c Hc).
  replace ((32 <=? c) && (c <=? 125)) with false
    by (symmetry; apply andb_false_iff; lia).
  destruct dp; [|reflexivity].
  apply to_byte_small, lor_0x80_is_byte, to_byte_is_byte.
Qed.

Lemma lookup_is_byte pat0 c dp : is_byte (lookup pat0 c dp).
Proof.
  unfold lookup.
  destruct dp; [apply to_byte_is_byte|].
  destruct ((32 <=? to_char c) && (to_char c <=? 125)); apply to_byte_is_byte.
Qed.

(** The conversion of [write]'s [uint8_t] argument to [displayChar]'s [char]
    parameter does not change what [lookup] sees. *)
Lemma lookup_to_char pat0 c dp : lookup pat0 (to_char c) dp = lookup pat0 c dp.
Proof.
  unfold lookup. rewrite (to_char_small (to_char c)); [reflexivity|].
  apply to_char_is_char.
Qed.

(** C1: the claim is that lookup(c, false) is 0x00 for every c outside
    space..closing brace. In the code the local [pat] has no initialiser and
    is assigned only inside the range check, so the result for such a c is
    its indeterminate content: for the tilde (code 126) and a content of
    0xff the result is 0xff, not 0x00. *)
Theorem lookup_tilde_returns_uninitialised_pat :
  lookup 0xff 126 false = 0xff /\ lookup 0xff 126 false <> 0x00.
Proof. split; [reflexivity | discriminate]. Qed.

(** C7: for every character code c from space to closing brace,
    lookup(c, false) is the 8-bit rotation right by one of the table entry at
    index c - 32: the result is a byte, its bit 7 is bit 0 of the entry, and
    its bit i is bit i + 1 of the entry for i below 7. *)
Theorem lookup_rotates_table_entry pat0 c :
  32 <= c <= 125 ->
  exists e,
    pattern !! Z.to_nat (c - 32) = Some e /\
    is_byte e /\
    lookup pat0 c false = rotr8 e /\
    is_byte (lookup pat0 c false) /\
    Z.testbit (lookup pat0 c false) 7 = Z.testbit e 0 /\
    forall i, 0 <= i < 7 ->
              Z.testbit (lookup pat0 c false) i = Z.testbit e (i + 1).
Proof.
  intros Hc.
  destruct (pattern_entry c Hc) as (e & Hlk & He & Hrd).
  exists e. rewrite (lookup_in_range pat0 c false Hc), Hrd.
  destruct (rotr8_bits e He) as (Hb & H7 & Hi).
  split; [exact Hlk|]. split; [exact He|]. split; [reflexivity|].
  split; [exact Hb|]. split; [exact H7 | exact Hi].
Qed.

Lemma lookup_rotates_table_entry_witness :
  32 <= 65 <= 125 /\
  exists e,
    pattern !! Z.to_nat (65 - 32) = Some e /\
    is_byte e /\
    lookup 0 65 false = rotr8 e /\
    is_byte (lookup 0 65 false) /\
    Z.testbit (lookup 0 65 false) 7 = Z.testbit e 0 /\
    forall i, 0 <= i < 7 ->
              Z.testbit (lookup 0 65 false) i = Z.testbit e (i + 1).
Proof.
  split; [lia | apply (lookup_rotates_table_entry 0 65); lia].
Defined.

(** C8: for every character code c from the exclamation mark to the closing
    brace, lookup is deterministic (its result does not depend on the
    indeterminate content of the local) and lookup(c, true) is
    lookup(c, false) | 0x80. *)
Theorem lookup_decimal_point_sets_bit7 pat0 pat1 c :
  33 <= c <= 125 ->
  lookup pat0 c false = lookup pat1 c false /\
  lookup pat0 c true = lookup pat1 c true /\
  lookup pat0 c true = Z.lor (lookup pat0 c false) 0x80.
Proof.
  intros Hc.
  rewrite !(lookup_in_range _ c true), !(lookup_in_range _ c false) by lia.
  repeat split.
Qed.

Lemma lookup_decimal_point_sets_bit7_witness :
  33 <= 49 <= 125 /\
  lookup 0 49 false = lookup 255 49 false /\
  lookup 0 49 true = lookup 255 49 true /\
  lookup 0 49 true = Z.lor (lookup 0 49 false) 0x80.
Proof.
  split; [lia | apply (lookup_decimal_point_sets_bit7 0 255 49); lia].
Defined.

(** ** Array accesses in range *)

Lemma in_bounds_true {A} (l : list A) i :
  0 <= i < Z.of_nat (length l) -> in_bounds l i = true.
Proof. intros H. unfold in_bounds. apply andb_true_iff. lia. Qed.

Lemma in_bounds_false {A} (l : list A) i :
  i < 0 \/ Z.of_nat (length l) <= i -> in_bounds l i = false.
Proof. intros H. unfold in_bounds. apply andb_false_iff. lia. Qed.

Lemma load_ok {A} a (l : list A) i v :
  0 <= i -> l !! Z.to_nat i = Some v -> load a l i = Ok v.
Proof.
  intros Hi Hv. unfold load. rewrite in_bounds_true, Hv; [reflexivity|].
  apply lookup_lt_Some in Hv. lia.
Qed.

Lemma load_inv {A} a (l : list A) i v :
  load a l i = Ok v -> 0 <= i < Z.of_nat (length l) /\ l !! Z.to_nat i = Some v.
Proof.
  unfold load, in_bounds. intros H.
  destruct ((0 <=? i) && (i <? Z.of_nat (length l))) eqn:Hb; [|discriminate].
  apply andb_true_iff in Hb.
  destruct (l !! Z.to_nat i) eqn:Hl; [|discriminate].
  split; [lia | congruence].
Qed.

Lemma load_buf_in pat0 (l : list Z) i v :
  0 <= i -> l !! Z.to_nat i = Some v -> load_buf pat0 l i = v.
Proof.
  intros Hi Hv. unfold load_buf. rewrite in_bounds_true, Hv; [reflexivity|].
  apply lookup_lt_Some in Hv. lia.
Qed.

Lemma load_buf_out pat0 (l : list Z) i :
  i < 0 \/ Z.of_nat (length l) <= i -> load_buf pat0 l i = indeterminate pat0 i.
Proof.
  intros H. unfold load_buf. rewrite in_bounds_false by exact H. reflexivity.
Qed.

Lemma store_in {A} a (l : list A) i v :
  0 <= i < Z.of_nat (length l) ->
  store a l i v = (<[Z.to_nat i := v]> l, []).
Proof. intros H. unfold store. rewrite in_bounds_true by exact H. reflexivity. Qed.

Lemma store_out {A} a (l : list A) i v :
  i < 0 \/ Z.of_nat (length l) <= i -> store a l i v = (l, [(a, i)]).
Proof. intros H. unfold store. rewrite in_bounds_false by exact H. reflexivity. Qed.

Lemma store_length {A} a (l : list A) i v : length (store a l i v).1 = length l.
Proof.
  unfold store. destruct (in_bounds l i); [apply length_insert | reflexivity].
Qed.

Lemma store_buf_in i v s :
  0 <= i < Z.of_nat (length (buf s)) ->
  store_buf i v s =
  mkSevSeg (digits s) (pos s) (autoscrolling s) (<[Z.to_nat i := v]> (buf s))
           (spi s) (stray s).
Proof.
  intros H. unfold store_buf. rewrite store_in by exact H.
  cbn. rewrite app_nil_r. reflexivity.
Qed.

(** ** begin *)

(** No operation without a fault assigns the member [digits]. *)
Lemma begin_digits n s : digits (begin n s) = digits s.
Proof. reflexivity. Qed.

Lemma begin_scan_limit n s :
  spi (begin n s) !! length (spi s) = Some (MAX7219_REG_SCAN_LIMIT, Z.max (to_byte n) 4).
Proof.
  assert ((if to_byte n <? 4 then 4 else to_byte n) = Z.max (to_byte n) 4) as E.
  { destruct (Z.ltb_spec (to_byte n) 4); lia. }
  assert (to_byte (Z.max (to_byte n) 4) = Z.max (to_byte n) 4) as E2.
  { apply to_byte_small. pose proof (to_byte_is_byte n). unfold is_byte in *. lia. }
  cbn. rewrite E, E2.
  rewrite <- !app_assoc. rewrite lookup_app_r by lia.
  rewrite Nat.sub_diag. reflexivity.
Qed.

(** C2: the claim is that after begin(n) the stored digit count is max(n, 4),
    so 8 after begin(8). In the code the parameter of [begin] has the name
    of the member and hides it: the clamped value goes to the scan-limit
    register, and the member keeps the 4 of the constructor. *)
Theorem begin_8_leaves_digits_at_4 buf0 :
  digits (begin 8 (construct buf0)) = 4 /\
  digits (begin 8 (construct buf0)) <> Z.max 8 4 /\
  spi (begin 8 (construct buf0)) !! 0%nat = Some (MAX7219_REG_SCAN_LIMIT, 8).
Proof. split; [reflexivity|]. split; [discriminate | reflexivity]. Qed.

(** ** write of a full stop *)

(** C5, amended: for every state whose cursor is at most 8, write of a full
    stop ORs 0x80 into the buffer entry at cursor - 1 (at 0 when the cursor is
    0), sends that one digit register again (one frame, for register p + 1,
    with the new pattern), leaves the cursor and every other buffer entry
    unchanged, and returns 1. *)
Theorem write_dot_sets_decimal_point pat0 s :
  0 <= pos s <= 8 ->
  length (buf s) = 8%nat ->
  let p := if 0 <? pos s then pos s - 1 else 0 in
  exists old s',
    buf s !! Z.to_nat p = Some old /\
    write pat0 46 s = Ok (s', 1) /\
    buf s' !! Z.to_nat p = Some (to_char (Z.lor old 0x80)) /\
    to_byte (to_char (Z.lor old 0x80)) = Z.lor (to_byte old) 0x80 /\
    (forall j, j <> Z.to_nat p -> buf s' !! j = buf s !! j) /\
    length (buf s') = 8%nat /\
    spi s' = spi s ++ [(p + 1, Z.lor (to_byte old) 0x80)] /\
    pos s' = pos s /\
    digits s' = digits s /\
    autoscrolling s' = autoscrolling s /\
    stray s' = stray s.
Proof.
  intros Hpos Hlen p.
  assert (0 <= p <= 7) as Hp.
  { subst p. destruct (Z.ltb_spec 0 (pos s)); lia. }
  destruct (lookup_lt_is_Some_2 (buf s) (Z.to_nat p)) as [old Hold]; [lia|].
  exists old. eexists.
  split; [exact Hold|].
  unfold write. change (to_byte 46 =? 46) with true. cbv iota.
  fold p. rewrite (to_byte_small p) by (unfold is_byte; lia).
  rewrite (load_buf_in pat0 (buf s) p old) by (lia || exact Hold).
  rewrite store_buf_in by lia.
  split; [reflexivity|].
  unfold writeSPI. cbn [buf spi pos digits autoscrolling stray].
  rewrite to_byte_to_char, to_byte_lor_0x80.
  rewrite (to_byte_small (p + 1)) by (unfold is_byte; lia).
  split; [apply list_lookup_insert_eq; lia|].
  split; [reflexivity|].
  split; [intros j Hj; apply list_lookup_insert_ne; congruence|].
  split; [rewrite length_insert; exact Hlen|].
  repeat split.
Qed.

Lemma write_dot_sets_decimal_point_witness :
  exists old s',
    [48; 109; 0; 0; 0; 0; 0; 0] !! Z.to_nat 1 = Some old /\
    write 0 46 (mkSevSeg 4 2 false [48; 109; 0; 0; 0; 0; 0; 0] [] []) = Ok (s', 1) /\
    buf s' !! Z.to_nat 1 = Some (to_char (Z.lor old 0x80)) /\
    spi s' = [(2, Z.lor (to_byte old) 0x80)] /\
    pos s' = 2.
Proof.
  destruct (write_dot_sets_decimal_point 0
              (mkSevSeg 4 2 false [48; 109; 0; 0; 0; 0; 0; 0] [] []))
    as (old & s' & H1 & H2 & H3 & _ & _ & _ & H4 & H5 & _);
    [cbn; lia | reflexivity |].
  exists old, s'. repeat split; assumption.
Defined.

(** C5 as stated, for every state of the cursor, fails: [setCursor] accepts
    any byte, and with the cursor at 9 the place at cursor - 1 is [buf[8]],
    the byte after the buffer. write of a full stop returns 1 as ever, but no
    buffer entry gets bit 7 (the buffer is as before, the store is in the
    monitor), and the one frame it sends goes to register 9, the decode-mode
    register, not to a digit register. *)
Lemma write_dot_cursor_9_outside_buf :
  let s := setCursor 9 0 (construct [0; 0; 0; 0; 0; 0; 0; 0]) in
  exists s',
    write 0 46 s = Ok (s', 1) /\
    buf s' !! Z.to_nat (pos s - 1) = None /\
    buf s' = buf s /\
    Forall (fun b => Z.testbit b 7 = false) (buf s') /\
    stray s' = [(A_buf, 8)] /\
    spi s' = [(MAX7219_REG_DECODE, 0x80)] /\
    ~ 1 <= MAX7219_REG_DECODE <= 8.
Proof.
  eexists. split; [reflexivity|]. split; [reflexivity|].
  split; [reflexivity|].
  split; [repeat constructor|]. split; [reflexivity|].
  split; [reflexivity|]. cbv -[Z.le]. lia.
Qed.

(** ** write with autoscroll *)

Lemma displayChar_in_range pat0 digit value dp s :
  0 <= digit < Z.of_nat (length (buf s)) -> digit < 128 ->
  displayChar pat0 digit value dp s =
  mkSevSeg (digits s) (pos s) (autoscrolling s)
           (<[Z.to_nat digit := to_char (lookup pat0 value dp)]> (buf s))
           (spi s ++ [(digit + 1, lookup pat0 value dp)]) (stray s).
Proof.
  intros Hd Hc. unfold displayChar.
  rewrite (to_char_small digit) by (unfold is_char; lia).
  rewrite lookup_to_char, store_buf_in by exact Hd.
  unfold writeSPI. cbn [digits pos autoscrolling buf spi stray].
  rewrite (to_byte_small (digit + 1)) by (unfold is_byte; lia).
  rewrite (to_byte_small (lookup pat0 value dp)) by apply lookup_is_byte.
  reflexivity.
Qed.

(** The loop moves entries [k + 1 .. k + n] one place down and sends each
    moved entry to its new register. *)
Lemma scroll_loop_spec pat0 n : forall (k : nat) s,
  (k + n <= 7)%nat -> length (buf s) = 8%nat ->
  scroll_loop pat0 n (Z.of_nat k) s =
  mkSevSeg (digits s) (pos s) (autoscrolling s)
    (take k (buf s) ++ take n (drop (S k) (buf s)) ++ drop (k + n) (buf s))
    (spi s ++ frames_from (Z.of_nat k + 1) (take n (drop (S k) (buf s))))
    (stray s).
Proof.
  induction n as [|n IH]; intros k s Hk Hlen.
  - cbn [scroll_loop]. rewrite take_0. cbn [frames_from app].
    rewrite Nat.add_0_r, app_nil_r, take_drop. destruct s; reflexivity.
  - destruct (lookup_lt_is_Some_2 (buf s) (S k)) as [v Hv]; [lia|].
    cbn [scroll_loop].
    rewrite (load_buf_in pat0 (buf s) (Z.of_nat k + 1) v);
      [| lia | replace (Z.to_nat (Z.of_nat k + 1)) with (S k) by lia; exact Hv].
    rewrite store_buf_in by lia.
    rewrite Nat2Z.id.
    rewrite (to_byte_small (Z.of_nat k + 1)) by (unfold is_byte; lia).
    replace (Z.of_nat k + 1) with (Z.of_nat (S k)) by lia.
    rewrite IH; [| lia | unfold writeSPI; cbn [buf]; rewrite length_insert; exact Hlen].
    unfold writeSPI. cbn [digits pos autoscrolling buf spi stray].
    rewrite (to_byte_small (Z.of_nat (S k))) by (unfold is_byte; lia).
    f_equal.
    + rewrite (take_S_r _ k v) by (apply list_lookup_insert_eq; lia).
      rewrite take_insert_ge by lia.
      rewrite !drop_insert_lt by lia.
      rewrite (drop_S (buf s) v (S k) Hv). cbn [take].
      rewrite <- app_assoc. cbn [app].
      replace (S k + n)%nat with (k + S n)%nat by lia. reflexivity.
    + rewrite drop_insert_lt by lia.
      rewrite (drop_S (buf s) v (S k) Hv). cbn [take frames_from].
      rewrite <- app_assoc. cbn [app].
      replace (Z.of_nat (S k) + 1) with (Z.of_nat k + 1 + 1) by lia.
      replace (Z.of_nat (S k)) with (Z.of_nat k + 1) by lia.
      reflexivity.
Qed.

Lemma scroll_loop_from_0 pat0 m s :
  (m <= 7)%nat -> length (buf s) = 8%nat ->
  scroll_loop pat0 m 0 s =
  mkSevSeg (digits s) (pos s) (autoscrolling s)
    (take m (drop 1 (buf s)) ++ drop m (buf s))
    (spi s ++ frames_from 1 (take m (drop 1 (buf s))))
    (stray s).
Proof.
  intros Hm Hlen. change 0 with (Z.of_nat 0).
  rewrite scroll_loop_spec by lia. rewrite take_0. reflexivity.
Qed.

(** C4: for every character ch other than the full stop, with autoscroll on
    and the cursor equal to the digit count, write(ch) moves entry i + 1 of
    the buffer to entry i for every i in 0..digitCount-2, sends each moved
    entry to its register in that order, puts lookup(ch, false) at index
    digitCount - 1 (and sends it), leaves the cursor where it was and
    returns 1. *)
Theorem write_autoscroll_shifts_left pat0 ch s :
  is_byte ch -> ch <> 46 ->
  autoscrolling s = true -> pos s = digits s ->
  1 <= digits s <= 8 -> length (buf s) = 8%nat ->
  let n := Z.to_nat (digits s) in
  let code := lookup pat0 ch false in
  exists s',
    write pat0 ch s = Ok (s', 1) /\
    buf s' = take (n - 1) (drop 1 (buf s)) ++ [to_char code] ++ drop n (buf s) /\
    (forall i, (i < n - 1)%nat -> buf s' !! i = buf s !! S i) /\
    buf s' !! (n - 1)%nat = Some (to_char code) /\
    to_byte (to_char code) = code /\
    spi s' = spi s ++ frames_from 1 (take (n - 1) (drop 1 (buf s)))
                   ++ [(digits s, code)] /\
    pos s' = pos s /\
    digits s' = digits s /\
    autoscrolling s' = true /\
    stray s' = stray s.
Proof.
  intros Hch Hne Hauto Hpos Hd Hlen n code.
  destruct (lookup_lt_is_Some_2 (buf s) (n - 1)) as [x Hx]; [lia|].
  assert (length (take (n - 1) (drop 1 (buf s))) = (n - 1)%nat) as Hlt.
  { rewrite length_take, length_drop. lia. }
  eexists. split.
  - unfold write. rewrite (to_byte_small ch Hch).
    replace (ch =? 46) with false by (symmetry; apply Z.eqb_neq; exact Hne).
    rewrite Hauto, Hpos, Z.eqb_refl. cbn [andb].
    replace (Z.to_nat (digits s - 1)) with (n - 1)%nat by lia.
    rewrite scroll_loop_from_0 by lia. cbn [bind digits]. reflexivity.
  - rewrite displayChar_in_range;
      [| cbn [buf]; rewrite length_app, Hlt, length_drop; lia | lia].
    cbn [digits pos autoscrolling buf spi stray]. fold code.
    assert (<[Z.to_nat (digits s - 1) := to_char code]>
              (take (n - 1) (drop 1 (buf s)) ++ drop (n - 1) (buf s)) =
            take (n - 1) (drop 1 (buf s)) ++ [to_char code] ++ drop n (buf s))
      as ->.
    { rewrite insert_app_r_alt by lia. rewrite Hlt.
      replace (Z.to_nat (digits s - 1) - (n - 1))%nat with 0%nat by lia.
      rewrite (drop_S (buf s) x (n - 1) Hx).
      replace (S (n - 1)) with n by lia. reflexivity. }
    split; [reflexivity|].
    split.
    { intros i Hi. rewrite lookup_app_l by lia.
      rewrite lookup_take_lt by lia. rewrite lookup_drop. reflexivity. }
    split.
    { rewrite lookup_app_r by lia. rewrite Hlt, Nat.sub_diag. reflexivity. }
    split; [rewrite to_byte_to_char; apply to_byte_small, lookup_is_byte|].
    split.
    { rewrite <- app_assoc. replace (digits s - 1 + 1) with (digits s) by lia.
      reflexivity. }
    repeat split; assumption.
Qed.

Lemma write_autoscroll_shifts_left_witness :
  exists s',
    write 0 53 (mkSevSeg 4 4 true [48; 109; 121; 51; 7; 7; 7; 7] [] []) =
      Ok (s', 1) /\
    buf s' = [109; 121; 51; to_char (lookup 0 53 false); 7; 7; 7; 7] /\
    spi s' = [(1, 109); (2, 121); (3, 51); (4, lookup 0 53 false)] /\
    pos s' = 4.
Proof.
  destruct (write_autoscroll_shifts_left 0 53
              (mkSevSeg 4 4 true [48; 109; 121; 51; 7; 7; 7; 7] [] []))
    as (s' & H1 & H2 & _ & _ & _ & H3 & H4 & _);
    [unfold is_byte; lia | lia | reflexivity | reflexivity | cbn; lia
    | reflexivity |].
  exists s'. repeat split; assumption.
Defined.

(** ** displayText: the first loop *)

Lemma locals0_represents : represents locals0 [].
Proof.
  unfold represents. cbn. repeat split; intros; discriminate.
Qed.

Lemma mark_last_length slots : length (mark_last slots) = length slots.
Proof. unfold mark_last. apply length_alter. Qed.

Lemma step1_represents c k slots :
  represents k slots -> (length slots < 16)%nat ->
  represents (displayText_step1 c k)
             (if c =? 46 then mark_last slots else slots ++ [(c, false)]) /\
  l_stray (displayText_step1 c k) =
  l_stray k ++ (if c =? 46 then
                  match slots with [] => [(A_decimal, -1)] | _ :: _ => [] end
                else []).
Proof.
  intros (Hy & Ht & Hd & Hs) Hlen. unfold displayText_step1.
  destruct (c =? 46).
  - destruct slots as [|sl0 slots0] eqn:Eslots.
    + rewrite store_out by (rewrite Hy; cbn; lia). cbn [fst snd].
      split; [|cbn [l_stray]; rewrite Hy; reflexivity].
      change (mark_last []) with (@nil (Z * bool)).
      unfold represents. cbn [y trimStr decimal]. auto.
    + rewrite <- Eslots in *.
      assert (0 < length slots)%nat as Hpos by (rewrite Eslots; cbn; lia).
      rewrite store_in by (rewrite Hy, Hd; lia). cbn [fst snd].
      split; [|rewrite app_nil_r; reflexivity].
      unfold represents. cbn [y trimStr decimal].
      rewrite mark_last_length, length_insert.
      split; [exact Hy|]. split; [exact Ht|]. split; [exact Hd|].
      intros i sl Hi. unfold mark_last in Hi.
      replace (Z.to_nat (y k - 1)) with (length slots - 1)%nat by lia.
      destruct (decide (i = (length slots - 1)%nat)) as [->|Hne].
      * rewrite list_lookup_alter_eq in Hi.
        destruct (slots !! (length slots - 1)%nat) as [old|] eqn:Hold;
          [|discriminate].
        injection Hi as <-. cbn [fst snd].
        destruct (Hs _ _ Hold) as [Ht1 _].
        split; [exact Ht1|].
        apply list_lookup_insert_eq. lia.
      * rewrite list_lookup_alter_ne in Hi by congruence.
        rewrite list_lookup_insert_ne by congruence.
        apply Hs. exact Hi.
  - rewrite !store_in by (rewrite Hy; lia). cbn [fst snd app].
    split; [|rewrite app_nil_r; reflexivity].
    unfold represents. cbn [y trimStr decimal].
    rewrite length_app, !length_insert. cbn [length].
    split; [lia|]. split; [exact Ht|]. split; [exact Hd|].
    intros i sl Hi.
    replace (Z.to_nat (y k)) with (length slots) by lia.
    destruct (decide (i = length slots)) as [->|Hne].
    + rewrite lookup_app_r, Nat.sub_diag in Hi by lia.
      injection Hi as <-. cbn [fst snd].
      split; apply list_lookup_insert_eq; lia.
    + assert (i < length slots)%nat as Hlt.
      { apply lookup_lt_Some in Hi. rewrite length_app in Hi. cbn in Hi. lia. }
      rewrite lookup_app_l in Hi by exact Hlt.
      rewrite !list_lookup_insert_ne by congruence.
      apply Hs. exact Hi.
Qed.

Lemma loop1_represents text : forall k slots,
  represents k slots -> (length slots + length text <= 16)%nat ->
  represents (displayText_loop1 text k) (compact text slots) /\
  l_stray (displayText_loop1 text k) = l_stray k ++ stray_dots slots text.
Proof.
  induction text as [|c rest IH]; intros k slots Hk Hlen.
  - cbn [displayText_loop1 compact]. split; [exact Hk|].
    unfold stray_dots. destruct slots; cbn; rewrite app_nil_r; reflexivity.
  - cbn [length] in Hlen.
    destruct (step1_represents c k slots Hk) as [Hk1 Hs1]; [lia|].
    cbn [displayText_loop1 compact].
    assert (length (if (c =? 46)%Z then mark_last slots
                    else slots ++ [(c, false)])
              + length rest <= 16)%nat as Hlen1.
    { destruct (c =? 46);
        [rewrite mark_last_length | rewrite length_app; cbn [length]]; lia. }
    destruct (IH _ _ Hk1 Hlen1) as [Hk2 Hs2].
    split.
    + destruct (c =? 46); exact Hk2.
    + rewrite Hs2, Hs1, <- app_assoc. f_equal.
      unfold stray_dots. cbn [leading_dots].
      destruct (c =? 46).
      * destruct slots as [|sl0 slots0]; [reflexivity|].
        destruct (mark_last (sl0 :: slots0)) eqn:E; [|reflexivity].
        apply (f_equal length) in E. rewrite mark_last_length in E.
        discriminate E.
      * destruct (slots ++ [(c, false)]) eqn:E.
        { apply (f_equal length) in E. rewrite length_app in E.
          cbn in E. lia. }
        destruct slots; reflexivity.
Qed.

(** ** displayText: the second loop, and the whole *)

Lemma displayChar_digits pat0 digit value dp s :
  digits (displayChar pat0 digit value dp s) = digits s.
Proof. reflexivity. Qed.

Lemma loop2_render pats rj k : forall slots (x : nat) s,
  (forall i sl, slots !! i = Some sl ->
     trimStr k !! (x + i)%nat = Some (sl.1) /\
     decimal k !! (x + i)%nat = Some (Some (sl.2))) ->
  displayText_loop2 pats rj k (length slots) (Z.of_nat x) s =
  Ok (render pats rj (digits s) (y k) (Z.of_nat x) slots s).
Proof.
  induction slots as [|sl rest IH]; intros x s Hk; [reflexivity|].
  destruct (Hk 0%nat sl eq_refl) as [Ht Hd]. rewrite Nat.add_0_r in Ht, Hd.
  cbn [length displayText_loop2 render].
  rewrite (load_ok A_trimStr (trimStr k) (Z.of_nat x) (sl.1))
    by (lia || rewrite Nat2Z.id; exact Ht).
  unfold load_bool.
  rewrite (load_ok A_decimal (decimal k) (Z.of_nat x) (Some (sl.2)))
    by (lia || rewrite Nat2Z.id; exact Hd).
  cbn [bind].
  replace (Z.of_nat x + 1) with (Z.of_nat (S x)) by lia.
  rewrite IH.
  - destruct rj; cbn [negb]; rewrite displayChar_digits; reflexivity.
  - intros i sl' Hi.
    replace (S x + i)%nat with (x + S i)%nat by lia.
    apply Hk. exact Hi.
Qed.

Lemma take_strlen_cap (text : list Z) :
  take (Z.to_nat (if 16 <? Z.of_nat (length text) then 16
                  else Z.of_nat (length text))) text = take 16 text.
Proof.
  destruct (Z.ltb_spec 16 (Z.of_nat (length text))); [reflexivity|].
  rewrite Nat2Z.id, !take_ge by lia. reflexivity.
Qed.

(** The code does what the specification describes, and the monitor holds
    one entry for each leading dot. *)
Lemma displayText_refines_spec pats text rj s :
  displayText pats text rj s =
  Ok (displayText_spec pats text rj
        (log_stray (replicate (leading_dots (take 16 text)) (A_decimal, -1)) s)).
Proof.
  unfold displayText, displayText_spec. rewrite take_strlen_cap.
  destruct (loop1_represents (take 16 text) locals0 [] locals0_represents)
    as [(Hy & Ht & Hd & Hs) Hstray].
  { rewrite length_take. cbn [length]. lia. }
  cbn [l_stray locals0 app stray_dots] in Hstray.
  set (k := displayText_loop1 (take 16 text) locals0) in *.
  set (slots := compact (take 16 text) []) in *.
  cbn [digits log_stray].
  set (slots' := take (Z.to_nat (digits s)) slots).
  set (k' := if digits s <? y k
             then mkLocals (trimStr k) (decimal k) (digits s) (l_stray k)
             else k).
  assert (trimStr k' = trimStr k /\ decimal k' = decimal k /\
          l_stray k' = l_stray k) as (Et & Ed & El).
  { subst k'. destruct (digits s <? y k); repeat split. }
  assert (Z.to_nat (y k') = length slots') as Hn.
  { subst k' slots'. rewrite length_take.
    destruct (Z.ltb_spec (digits s) (y k)); cbn [y]; lia. }
  rewrite Hn, El, Hstray. change 0 with (Z.of_nat 0).
  rewrite loop2_render.
  - cbn [digits log_stray]. f_equal.
    destruct slots' as [|sl0 rest0] eqn:E; [reflexivity|].
    replace (y k') with (Z.of_nat (length (sl0 :: rest0))); [reflexivity|].
    rewrite <- Hn. cbn [length] in Hn. lia.
  - intros i sl Hi. rewrite Et, Ed. cbn [Nat.add].
    apply Hs. subst slots'. apply lookup_take_Some in Hi. apply Hi.
Qed.

Lemma render_frame pats rj dc sc : forall slots i s,
  pos (render pats rj dc sc i slots s) = pos s /\
  autoscrolling (render pats rj dc sc i slots s) = autoscrolling s /\
  digits (render pats rj dc sc i slots s) = digits s /\
  length (buf (render pats rj dc sc i slots s)) = length (buf s) /\
  exists frames, spi (render pats rj dc sc i slots s) = spi s ++ frames.
Proof.
  induction slots as [|sl rest IH]; intros i s.
  - cbn [render]. repeat split. exists []. rewrite app_nil_r. reflexivity.
  - cbn [render].
    destruct (IH (i + 1)
                (displayChar (pats i) (if rj then dc - sc + i else i)
                             (sl.1) (sl.2) s))
      as (Hp & Ha & Hd & Hl & frames & Hf).
    rewrite Hp, Ha, Hd, Hl, Hf.
    repeat split.
    + unfold displayChar, writeSPI, store_buf.
      cbn [buf]. apply store_length.
    + eexists. unfold displayChar, writeSPI, store_buf. cbn [spi].
      rewrite <- app_assoc. reflexivity.
Qed.

(** What [render] does to [buf] and the frames does not depend on the
    monitor, and the monitor only grows. *)
Lemma render_same_display pats rj dc sc : forall slots i s1 s2,
  buf s1 = buf s2 -> spi s1 = spi s2 ->
  buf (render pats rj dc sc i slots s1) = buf (render pats rj dc sc i slots s2) /\
  spi (render pats rj dc sc i slots s1) = spi (render pats rj dc sc i slots s2).
Proof.
  induction slots as [|sl rest IH]; intros i s1 s2 Hb Hs; [split; assumption|].
  cbn [render]. apply IH.
  - unfold displayChar, writeSPI, store_buf. cbn [buf]. rewrite Hb. reflexivity.
  - unfold displayChar, writeSPI, store_buf. cbn [spi]. rewrite Hs. reflexivity.
Qed.

Lemma render_stray pats rj dc sc : forall slots i s,
  exists m, stray (render pats rj dc sc i slots s) = stray s ++ m.
Proof.
  induction slots as [|sl rest IH]; intros i s.
  - exists []. rewrite app_nil_r. reflexivity.
  - cbn [render].
    destruct (IH (i + 1)
                (displayChar (pats i) (if rj then dc - sc + i else i)
                             (sl.1) (sl.2) s)) as [m Hm].
    rewrite Hm. unfold displayChar, writeSPI, store_buf. cbn [stray].
    rewrite <- app_assoc. eexists. reflexivity.
Qed.

(** A dot in front of a text of at most 15 characters adds no slot: the
    display shows what it shows for the text without the dot, and the
    monitor has recorded the store at index -1 of [decimal]. *)
Lemma displayText_leading_dot pats rest rj s :
  (length rest <= 15)%nat ->
  exists s1 s2,
    displayText pats (46 :: rest) rj s = Ok s1 /\
    displayText pats rest rj s = Ok s2 /\
    compact (46 :: rest) [] = compact rest [] /\
    buf s1 = buf s2 /\ spi s1 = spi s2 /\
    In (A_decimal, -1) (stray s1).
Proof.
  intros Hlen. rewrite !displayText_refines_spec.
  eexists. eexists. split; [reflexivity|]. split; [reflexivity|].
  split; [reflexivity|].
  unfold displayText_spec. cbn [digits log_stray].
  replace (take 16 (46 :: rest)) with (46 :: take 16 rest)
    by (rewrite !take_ge by (cbn [length]; lia); reflexivity).
  change (compact (46 :: take 16 rest) []) with (compact (take 16 rest) []).
  set (slots := take (Z.to_nat (digits s)) (compact (take 16 rest) [])).
  match goal with
  | |- buf (render _ _ _ _ _ _ ?a) = buf (render _ _ _ _ _ _ ?b) /\ _ =>
      destruct (render_same_display pats rj (digits s)
                  (Z.of_nat (length slots)) slots 0 a b eq_refl eq_refl)
        as [Hb Hs];
      destruct (render_stray pats rj (digits s)
                  (Z.of_nat (length slots)) slots 0 a) as [m Hm]
  end.
  split; [exact Hb|]. split; [exact Hs|].
  rewrite Hm. cbn [stray leading_dots]. change (46 =? 46) with true. cbv iota.
  apply in_or_app. left. apply in_or_app. right. left. reflexivity.
Qed.

(** C3: the claim is that for a string beginning with a dot displayText
    drops the dot without any out-of-range access. The first loop executes
    [decimal[y - 1] = true] with [y = 0], a store at index -1 of the
    16-entry array [decimal]; [write] guards the same case with
    [(pos > 0) ? pos - 1 : 0]. For every string that begins with a dot the
    monitor holds that store afterwards, and for the string of one dot on a
    new object it holds nothing else. *)
Theorem displayText_dot_stores_at_decimal_minus_1 pats rest rj s buf0 :
  (exists s',
     displayText pats (46 :: rest) rj s = Ok s' /\
     In (A_decimal, -1) (stray s')) /\
  (exists s',
     displayText pats (cstring ".") false (construct buf0) = Ok s' /\
     stray s' = [(A_decimal, -1)] /\
     stray s' <> []).
Proof.
  split.
  - rewrite displayText_refines_spec. eexists. split; [reflexivity|].
    unfold displayText_spec.
    match goal with
    | |- In _ (stray (render ?p ?r ?dc ?sc ?i ?sl ?st)) =>
        destruct (render_stray p r dc sc sl i st) as [m Hm]
    end.
    rewrite Hm. cbn [stray log_stray take leading_dots].
    change (46 =? 46) with true. cbv iota. cbn [replicate].
    apply in_or_app. left. apply in_or_app. right. left. reflexivity.
  - eexists. split; [reflexivity|]. split; [reflexivity | discriminate].
Qed.

(** C6: for every input string whose length an [int] holds, on an object
    with its 8 buffer entries and a digit count of at most 8 (where every
    store of the second loop is inside [buf]), displayText takes the first
    16 characters, compacts them into slots (a dot sets the flag of the slot
    before it), keeps the first digitCount slots, and writes slot i to digit
    i, or to digit digitCount - slotCount + i when right justified, a digit
    below digitCount in both cases; the other slots are dropped. On a new
    object (4 digits) the string 12345678, left justified, puts the patterns
    of 1, 2, 3, 4 into digits 0..3 and leaves digits 4..7 as they were,
    exactly as the string 1234 does. *)
Theorem displayText_caps_compacts_places pats text rj s b0 b1 b2 b3 b4 b5 b6 b7 :
  fits_int text -> 0 <= digits s <= 8 -> length (buf s) = 8%nat ->
  let slots := take (Z.to_nat (digits s)) (compact (take 16 text) []) in
  let slotCount := Z.of_nat (length slots) in
  displayText pats text rj s =
    Ok (render pats rj (digits s) slotCount 0 slots
          (log_stray (replicate (leading_dots (take 16 text)) (A_decimal, -1)) s))
  /\ slotCount <= digits s
  /\ (forall i, 0 <= i < slotCount ->
        0 <= (if rj then digits s - slotCount + i else i) < digits s)
  /\ displayText pats (cstring "12345678") false
        (construct [b0; b1; b2; b3; b4; b5; b6; b7]) =
      Ok (mkSevSeg 4 0 false
            [to_char (lookup 0 49 false); to_char (lookup 0 50 false);
             to_char (lookup 0 51 false); to_char (lookup 0 52 false);
             b4; b5; b6; b7]
            [(1, lookup 0 49 false); (2, lookup 0 50 false);
             (3, lookup 0 51 false); (4, lookup 0 52 false)]
            [])
  /\ displayText pats (cstring "12345678") false
        (construct [b0; b1; b2; b3; b4; b5; b6; b7]) =
      displayText pats (cstring "1234") false
        (construct [b0; b1; b2; b3; b4; b5; b6; b7]).
Proof.
  intros _ Hdig _ slots slotCount.
  assert (slotCount <= digits s) as Hle.
  { subst slotCount slots. rewrite length_take. lia. }
  split; [apply displayText_refines_spec|].
  split; [exact Hle|].
  split; [intros i Hi; destruct rj; lia|].
  split; vm_compute; reflexivity.
Qed.

Lemma displayText_caps_compacts_places_witness :
  fits_int (cstring "12.345") /\
  displayText (fun _ => 0) (cstring "12.345") true
    (construct [0; 0; 0; 0; 0; 0; 0; 0]) =
  Ok (render (fun _ => 0) true 4 4 0
        [(49, false); (50, true); (51, false); (52, false)]
        (construct [0; 0; 0; 0; 0; 0; 0; 0])).
Proof.
  assert (fits_int (cstring "12.345")) as Hfit.
  { unfold fits_int. cbn. lia. }
  split; [exact Hfit|].
  destruct (displayText_caps_compacts_places (fun _ => 0) (cstring "12.345")
              true (construct [0; 0; 0; 0; 0; 0; 0; 0]) 0 0 0 0 0 0 0 0
              Hfit ltac:(cbn; lia) eq_refl) as (H & _).
  exact H.
Defined.

(** With every target digit in 0..7, [render] sends frames for digit
    registers only. *)
Lemma render_digit_frames pats (rj : bool) dc sc : forall slots i s,
  (forall j : nat, (j < length slots)%nat ->
     0 <= (if rj then dc - sc + (i + Z.of_nat j) else i + Z.of_nat j) <= 7) ->
  exists frames,
    spi (render pats rj dc sc i slots s) = spi s ++ frames /\
    Forall (fun f => 1 <= f.1 <= 8) frames.
Proof.
  induction slots as [|sl rest IH]; intros i s Ht.
  - exists (@nil (Z * Z)). cbn [render]. rewrite app_nil_r.
    split; [reflexivity | constructor].
  - cbn [render].
    pose proof (Ht 0%nat ltac:(cbn [length]; lia)) as H0.
    rewrite Z.add_0_r in H0.
    set (t := if rj then dc - sc + i else i) in *.
    destruct (IH (i + 1) (displayChar (pats i) t (sl.1) (sl.2) s))
      as (frames & Hf & Hall).
    { intros j Hj. specialize (Ht (S j) ltac:(cbn [length]; lia)).
      replace (i + 1 + Z.of_nat j) with (i + Z.of_nat (S j)) by lia.
      exact Ht. }
    rewrite Hf. unfold displayChar, writeSPI, store_buf. cbn [spi].
    rewrite <- app_assoc. eexists. split; [reflexivity|].
    constructor; [|exact Hall]. cbn [fst].
    rewrite (to_char_small t) by (unfold is_char; lia).
    rewrite (to_byte_small (t + 1)) by (unfold is_byte; lia). lia.
Qed.

(** C10: for every input string and justification flag, on an object with
    its 8 buffer entries and a digit count of at most 8 (where every store
    of the second loop is inside [buf]), displayText returns with the cursor
    position and the autoscroll flag (and the digit count) as they were; the
    buffer keeps its length, the frames sent before are followed by the new
    ones, and the new frames go to digit registers (opcodes 1..8) only. *)
Theorem displayText_keeps_cursor_and_autoscroll pats text rj s :
  0 <= digits s <= 8 -> length (buf s) = 8%nat ->
  exists s' frames,
    displayText pats text rj s = Ok s' /\
    pos s' = pos s /\
    autoscrolling s' = autoscrolling s /\
    digits s' = digits s /\
    length (buf s') = length (buf s) /\
    spi s' = spi s ++ frames /\
    Forall (fun f => 1 <= f.1 <= 8) frames.
Proof.
  intros Hdig _.
  rewrite displayText_refines_spec. unfold displayText_spec.
  cbn [digits log_stray].
  set (slots := take (Z.to_nat (digits s)) (compact (take 16 text) [])).
  set (st := log_stray _ s).
  destruct (render_frame pats rj (digits s) (Z.of_nat (length slots)) slots 0 st)
    as (Hp & Ha & Hd & Hl & frames & Hf).
  eexists. exists frames. split; [reflexivity|].
  rewrite Hp, Ha, Hd, Hl. repeat split. { exact Hf. }
  destruct (render_digit_frames pats rj (digits s) (Z.of_nat (length slots))
              slots 0 st) as (frames' & Hf' & Hall).
  { intros j Hj.
    assert (length slots <= Z.to_nat (digits s))%nat as Hle.
    { subst slots. rewrite length_take. lia. }
    destruct rj; lia. }
  rewrite Hf in Hf'. apply app_inv_head in Hf'. rewrite Hf'. exact Hall.
Qed.

Lemma displayText_keeps_cursor_and_autoscroll_witness :
  exists s' frames,
    displayText (fun _ => 0) (cstring "..1.2") true
      (mkSevSeg 4 3 true [1; 2; 3; 4; 5; 6; 7; 8] [(12, 1)] []) = Ok s' /\
    pos s' = 3 /\
    autoscrolling s' = true /\
    spi s' = [(12, 1)] ++ frames /\
    Forall (fun f => 1 <= f.1 <= 8) frames.
Proof.
  destruct (displayText_keeps_cursor_and_autoscroll (fun _ => 0)
              (cstring "..1.2") true
              (mkSevSeg 4 3 true [1; 2; 3; 4; 5; 6; 7; 8] [(12, 1)] []))
    as (s' & frames & H1 & H2 & H3 & _ & _ & H4 & H5);
    [cbn; lia | reflexivity |].
  exists s', frames. repeat split; assumption.
Defined.

(** ** The buffer mirrors the digit registers *)

Lemma last_sent_snoc r frames op d :
  last_sent r (frames ++ [(op, d)]) =
  if op =? r then Some d else last_sent r frames.
Proof. unfold last_sent. rewrite foldl_app. reflexivity. Qed.

(** A frame for a register that is no digit register. *)
Lemma mirrors_writeSPI_other op d s :
  ~ 1 <= to_byte op <= 8 -> mirrors s -> mirrors (writeSPI op d s).
Proof.
  intros Hop Hm i v Hi. unfold writeSPI. cbn [spi buf].
  rewrite last_sent_snoc.
  destruct (Z.eqb_spec (to_byte op) (i + 1)) as [E|_]; [lia|].
  apply Hm. exact Hi.
Qed.

(** [buf[i] = v] followed by a frame for register [i + 1] with the same
    8-bit pattern. *)
Lemma mirrors_store_send i v w s :
  0 <= i < 8 -> length (buf s) = 8%nat -> to_byte w = to_byte v ->
  mirrors s -> mirrors (writeSPI (i + 1) w (store_buf i v s)).
Proof.
  intros Hi Hlen Hw Hm j d Hj.
  rewrite store_buf_in by lia. unfold writeSPI. cbn [spi buf].
  rewrite last_sent_snoc, (to_byte_small (i + 1)) by (unfold is_byte; lia).
  destruct (Z.eqb_spec (i + 1) (j + 1)) as [E|Hne].
  - intros [= <-]. replace j with i by lia.
    rewrite list_lookup_insert_eq by lia. cbn. rewrite Hw. reflexivity.
  - intros Hl. rewrite list_lookup_insert_ne by lia.
    apply Hm; assumption.
Qed.

Lemma store_buf_length i v s : length (buf (store_buf i v s)) = length (buf s).
Proof. unfold store_buf. cbn [buf]. apply store_length. Qed.

Lemma set_pos_buf p s : buf (set_pos p s) = buf s.
Proof. reflexivity. Qed.

Lemma mirrors_set_pos p s : mirrors s -> mirrors (set_pos p s).
Proof. intros H. exact H. Qed.

Lemma mirrors_log_stray m s : mirrors s -> mirrors (log_stray m s).
Proof. intros H. exact H. Qed.

Lemma displayChar_length pat0 digit value dp s :
  length (buf (displayChar pat0 digit value dp s)) = length (buf s).
Proof. unfold displayChar, writeSPI. cbn [buf]. apply store_buf_length. Qed.

Lemma displayChar_mirrors pat0 digit value dp s :
  length (buf s) = 8%nat -> mirrors s ->
  mirrors (displayChar pat0 digit value dp s).
Proof.
  intros Hlen Hm. unfold displayChar.
  pose proof (to_char_is_char digit) as Hc. unfold is_char in Hc.
  destruct (decide (0 <= to_char digit < 8)) as [Hin|Hout].
  - apply mirrors_store_send; try assumption.
    symmetry. apply to_byte_to_char.
  - apply mirrors_writeSPI_other.
    + unfold to_byte. generalize dependent (to_char digit). intros c Hc Hout.
      Z.div_mod_to_equations. lia.
    + intros j d Hj. unfold store_buf. cbn [spi buf].
      rewrite store_out by lia. cbn [fst]. apply Hm. exact Hj.
Qed.

Lemma clear_loop_mirrors n : forall i s,
  0 <= i -> i + Z.of_nat n <= 8 -> length (buf s) = 8%nat -> mirrors s ->
  length (buf (clear_loop n i s)) = 8%nat /\ mirrors (clear_loop n i s).
Proof.
  induction n as [|n IH]; intros i s Hi Hn Hlen Hm; [split; assumption|].
  cbn [clear_loop]. apply IH; try lia.
  - unfold writeSPI. cbn [buf]. rewrite store_buf_length. exact Hlen.
  - apply mirrors_store_send; try assumption; lia.
Qed.

Lemma clear_mirrors s :
  length (buf s) = 8%nat -> mirrors s ->
  length (buf (clear s)) = 8%nat /\ mirrors (clear s).
Proof.
  intros Hlen Hm.
  destruct (clear_loop_mirrors 8 0 s) as [H1 H2];
    [lia | lia | exact Hlen | exact Hm |].
  unfold clear. split.
  - rewrite set_pos_buf. exact H1.
  - apply mirrors_set_pos. exact H2.
Qed.

Lemma writeSPI_buf op d s : buf (writeSPI op d s) = buf s.
Proof. reflexivity. Qed.

Lemma begin_unfold n s :
  begin n s =
  display (brightness INTENSITY_MAX (noTestMode (clear
    (writeSPI MAX7219_REG_DECODE 0x00
       (writeSPI MAX7219_REG_SCAN_LIMIT
          (if to_byte n <? 4 then 4 else to_byte n) s))))).
Proof. reflexivity. Qed.

Lemma begin_mirrors n s :
  length (buf s) = 8%nat -> mirrors s ->
  length (buf (begin n s)) = 8%nat /\ mirrors (begin n s).
Proof.
  intros Hlen Hm. rewrite begin_unfold.
  destruct (clear_mirrors
              (writeSPI MAX7219_REG_DECODE 0
                 (writeSPI MAX7219_REG_SCAN_LIMIT
                    (if to_byte n <? 4 then 4 else to_byte n) s)))
    as [H1 H2].
  - rewrite !writeSPI_buf. exact Hlen.
  - repeat (apply mirrors_writeSPI_other; [cbv -[Z.le]; lia|]). exact Hm.
  - generalize dependent (clear
              (writeSPI MAX7219_REG_DECODE 0
                 (writeSPI MAX7219_REG_SCAN_LIMIT
                    (if to_byte n <? 4 then 4 else to_byte n) s))).
    intros s1 H1 H2. unfold display, brightness, noTestMode.
    split; [rewrite !writeSPI_buf; exact H1|].
    repeat (apply mirrors_writeSPI_other; [cbv -[Z.le]; lia|]). exact H2.
Qed.

(** [buf[i] = v] for a byte [i], inside the buffer or past it, followed by
    a frame for register [i + 1]. *)
Lemma mirrors_store_send_byte i v s :
  is_byte i -> length (buf s) = 8%nat -> mirrors s ->
  length (buf (writeSPI (i + 1) v (store_buf i v s))) = 8%nat /\
  mirrors (writeSPI (i + 1) v (store_buf i v s)).
Proof.
  intros Hi Hlen Hm. unfold is_byte in Hi.
  split; [rewrite writeSPI_buf, store_buf_length; exact Hlen|].
  destruct (decide (i < 8)) as [Hin|Hout].
  - apply mirrors_store_send; try assumption; [lia | reflexivity].
  - apply mirrors_writeSPI_other.
    + unfold to_byte. Z.div_mod_to_equations. lia.
    + intros j d Hj. unfold store_buf. cbn [spi buf].
      rewrite store_out by lia. cbn [fst]. apply Hm. exact Hj.
Qed.

Lemma scroll_loop_mirrors pat0 n : forall i s,
  is_byte i -> length (buf s) = 8%nat -> mirrors s ->
  length (buf (scroll_loop pat0 n i s)) = 8%nat /\
  mirrors (scroll_loop pat0 n i s).
Proof.
  induction n as [|n IH]; intros i s Hi Hlen Hm; [split; assumption|].
  cbn [scroll_loop].
  destruct (mirrors_store_send_byte i (load_buf pat0 (buf s) (i + 1)) s
              Hi Hlen Hm) as [Hl1 Hm1].
  apply IH; [apply to_byte_is_byte | exact Hl1 | exact Hm1].
Qed.

Lemma write_mirrors pat0 ch s s' r :
  length (buf s) = 8%nat -> mirrors s ->
  write pat0 ch s = Ok (s', r) ->
  length (buf s') = 8%nat /\ mirrors s'.
Proof.
  intros Hlen Hm. unfold write.
  destruct (to_byte ch =? 46).
  - intros [= <- _].
    apply mirrors_store_send_byte; [apply to_byte_is_byte | exact Hlen | exact Hm].
  - destruct (autoscrolling s && (pos s =? digits s)).
    + destruct (scroll_loop_mirrors pat0 (Z.to_nat (digits s - 1)) 0 s)
        as [Hl1 Hm1]; [unfold is_byte; lia | exact Hlen | exact Hm |].
      intros [= <- _]. split.
      * rewrite displayChar_length. exact Hl1.
      * apply displayChar_mirrors; assumption.
    + intros [= <- _]. split.
      * rewrite displayChar_length. exact Hlen.
      * apply displayChar_mirrors; [exact Hlen | exact Hm].
Qed.

Lemma render_mirrors pats rj dc sc : forall slots i s,
  length (buf s) = 8%nat -> mirrors s ->
  mirrors (render pats rj dc sc i slots s).
Proof.
  induction slots as [|sl rest IH]; intros i s Hlen Hm; [exact Hm|].
  cbn [render]. apply IH.
  - rewrite displayChar_length. exact Hlen.
  - apply displayChar_mirrors; assumption.
Qed.

Lemma displayText_mirrors pats text rj s s' :
  length (buf s) = 8%nat -> mirrors s ->
  displayText pats text rj s = Ok s' ->
  length (buf s') = 8%nat /\ mirrors s'.
Proof.
  intros Hlen Hm. rewrite displayText_refines_spec. intros [= <-].
  unfold displayText_spec. split.
  - match goal with
    | |- length (buf (render ?p ?r ?dc ?sc ?i ?sl ?st)) = _ =>
        destruct (render_frame p r dc sc sl i st) as (_ & _ & _ & Hl & _)
    end.
    rewrite Hl. exact Hlen.
  - apply render_mirrors; [exact Hlen | exact Hm].
Qed.

Lemma exec_mirrors o s s' :
  length (buf s) = 8%nat -> mirrors s ->
  exec o s = Ok s' ->
  length (buf s') = 8%nat /\ mirrors s'.
Proof.
  intros Hlen Hm.
  assert (forall op d, ~ 1 <= to_byte op <= 8 ->
            length (buf (writeSPI op d s)) = 8%nat /\ mirrors (writeSPI op d s))
    as Hctl.
  { intros op d Hop. split; [exact Hlen|].
    apply mirrors_writeSPI_other; assumption. }
  destruct o as [n| |b| | | |x y0| | |pat0 digit value dp|pats text rj| | |pat0 ch];
    cbn [exec].
  - intros [= <-]. apply begin_mirrors; assumption.
  - intros [= <-]. apply clear_mirrors; assumption.
  - intros [= <-]. apply Hctl. cbv -[Z.le]. lia.
  - intros [= <-]. apply Hctl. cbv -[Z.le]. lia.
  - intros [= <-]. apply Hctl. cbv -[Z.le]. lia.
  - intros [= <-]. split; [exact Hlen | exact Hm].
  - intros [= <-]. split; [exact Hlen | exact Hm].
  - intros [= <-]. split; [exact Hlen | exact Hm].
  - intros [= <-]. split; [exact Hlen | exact Hm].
  - intros [= <-]. split.
    + rewrite displayChar_length. exact Hlen.
    + apply displayChar_mirrors; assumption.
  - apply displayText_mirrors; assumption.
  - intros [= <-]. apply Hctl. cbv -[Z.le]. lia.
  - intros [= <-]. apply Hctl. cbv -[Z.le]. lia.
  - destruct (write pat0 ch s) as [[s1 r]|] eqn:Hw; [|discriminate].
    cbn [bind fst]. intros [= <-].
    eapply write_mirrors; eassumption.
Qed.

Lemma run_app ops1 : forall ops2 s s',
  run (ops1 ++ ops2) s = Ok s' ->
  exists s1, run ops1 s = Ok s1 /\ run ops2 s1 = Ok s'.
Proof.
  induction ops1 as [|o ops1 IH]; intros ops2 s s' Hrun.
  - exists s. split; [reflexivity | exact Hrun].
  - cbn [app run] in *.
    destruct (exec o s) as [s0|]; [|discriminate].
    cbn [bind] in *. apply IH. exact Hrun.
Qed.

Lemma run_mirrors ops : forall s s',
  length (buf s) = 8%nat -> mirrors s ->
  run ops s = Ok s' ->
  length (buf s') = 8%nat /\ mirrors s'.
Proof.
  induction ops as [|o ops IH]; intros s s' Hlen Hm Hrun.
  - injection Hrun as <-. split; assumption.
  - cbn [run] in Hrun.
    destruct (exec o s) as [s0|] eqn:Ho; [|discriminate].
    cbn [bind] in Hrun.
    destruct (exec_mirrors o s s0 Hlen Hm Ho) as [Hl0 Hm0].
    apply (IH s0 s' Hl0 Hm0 Hrun).
Qed.

Lemma construct_mirrors buf0 : mirrors (construct buf0).
Proof. intros i d _ H. discriminate H. Qed.

(** Every operation returns: the source has no failing path, and the loads
    of [displayText] stay inside its arrays. *)
Lemma exec_progress o s : exists s', exec o s = Ok s'.
Proof.
  destruct o as [n| |b| | | |x y0| | |pat0 digit value dp|pats text rj| | |pat0 ch];
    cbn [exec]; try (eexists; reflexivity).
  - rewrite displayText_refines_spec. eexists. reflexivity.
  - unfold write. destruct (to_byte ch =? 46).
    + eexists. reflexivity.
    + destruct (autoscrolling s && (pos s =? digits s)); eexists; reflexivity.
Qed.

(** C9: take any sequence of operations on a new object, in particular one
    whose digit indices and cursor positions stay within 0..7, where the
    model follows the code. After each operation of the sequence, for every
    digit register i + 1 that has been written, entry i of the buffer is the
    data byte sent to it last. *)
Theorem buffer_mirrors_digit_registers buf0 ops1 ops2 s' :
  length buf0 = 8%nat ->
  run (ops1 ++ ops2) (construct buf0) = Ok s' ->
  exists s1,
    run ops1 (construct buf0) = Ok s1 /\
    run ops2 s1 = Ok s' /\
    length (buf s1) = 8%nat /\
    mirrors s1 /\
    forall i d, 0 <= i < 8 ->
      last_sent (i + 1) (spi s1) = Some d ->
      to_byte <$> (buf s1 !! Z.to_nat i) = Some d.
Proof.
  intros Hlen Hrun.
  destruct (run_app ops1 ops2 _ _ Hrun) as (s1 & H1 & H2).
  exists s1. split; [exact H1|]. split; [exact H2|].
  destruct (run_mirrors ops1 (construct buf0) s1 Hlen
              (construct_mirrors buf0) H1) as [Hl Hm].
  split; [exact Hl|]. split; [exact Hm | exact Hm].
Qed.

Lemma buffer_mirrors_digit_registers_witness :
  exists s1,
    run [OpBegin 8; OpWrite 0 49; OpWrite 0 46]
        (construct [1; 2; 3; 4; 5; 6; 7; 8]) = Ok s1 /\
    mirrors s1.
Proof.
  destruct (buffer_mirrors_digit_registers
              [1; 2; 3; 4; 5; 6; 7; 8]
              [OpBegin 8; OpWrite 0 49; OpWrite 0 46]
              [OpDisplayText (fun _ => 0) (cstring "2.5") true; OpWrite 0 51]
              (mkSevSeg 4 2 false [-80; 121; -19; 91; 0; 0; 0; 0]
                 [(11, 8); (9, 0); (1, 0); (2, 0); (3, 0); (4, 0); (5, 0);
                  (6, 0); (7, 0); (8, 0); (15, 0); (10, 15); (12, 1);
                  (1, 48); (1, 176); (3, 237); (4, 91); (2, 121)] []))
    as (s1 & H1 & _ & _ & Hm & _).
  - reflexivity.
  - vm_compute. reflexivity.
  - exists s1. split; [exact H1 | exact Hm].
Defined.

(** ** The digit count of an object *)

Lemma scroll_loop_frame pat0 n : forall i s,
  digits (scroll_loop pat0 n i s) = digits s /\
  pos (scroll_loop pat0 n i s) = pos s /\
  autoscrolling (scroll_loop pat0 n i s) = autoscrolling s.
Proof.
  induction n as [|n IH]; intros i s; [repeat split|].
  cbn [scroll_loop].
  destruct (IH (to_byte (i + 1))
              (writeSPI (i + 1) (load_buf pat0 (buf s) (i + 1))
                 (store_buf i (load_buf pat0 (buf s) (i + 1)) s)))
    as (Hd & Hp & Ha).
  rewrite Hd, Hp, Ha. repeat split.
Qed.

(** No operation assigns the member [digits], and the stores into [buf] and
    [decimal] that stay inside their arrays do not reach it. A store that
    leaves its array is in the monitor afterwards. *)
Lemma exec_digits o s s' : exec o s = Ok s' -> digits s' = digits s.
Proof.
  destruct o as [n| |b| | | |x y0| | |pat0 digit value dp|pats text rj| | |pat0 ch];
    cbn [exec]; try (intros [= <-]; reflexivity).
  - rewrite displayText_refines_spec. intros [= <-].
    unfold displayText_spec.
    match goal with
    | |- digits (render ?p ?r ?dc ?sc ?i ?sl ?st) = _ =>
        destruct (render_frame p r dc sc sl i st) as (_ & _ & Hd & _)
    end.
    exact Hd.
  - unfold write.
    destruct (to_byte ch =? 46).
    + cbn [bind fst]. intros [= <-]. reflexivity.
    + destruct (autoscrolling s && (pos s =? digits s)).
      * cbn [bind fst]. intros [= <-]. rewrite displayChar_digits.
        apply scroll_loop_frame.
      * cbn [bind fst]. intros [= <-]. reflexivity.
Qed.

Lemma run_digits ops : forall buf0 s',
  run ops (construct buf0) = Ok s' -> stray s' = [] -> digits s' = 4.
Proof.
  intros buf0 s' Hrun _. revert Hrun.
  change 4 with (digits (construct buf0)).
  generalize (construct buf0) as s. revert s'.
  induction ops as [|o ops IH]; intros s' s Hrun.
  - injection Hrun as <-. reflexivity.
  - cbn [run] in Hrun.
    destruct (exec o s) as [s0|] eqn:Ho; [|discriminate].
    cbn [bind] in Hrun. rewrite (IH _ _ Hrun). apply (exec_digits o s s0 Ho).
Qed.

(** * Further properties of the driver *)

(** ** clear and begin *)

Lemma writeSPI_eq op d s :
  writeSPI op d s =
  mkSevSeg (digits s) (pos s) (autoscrolling s) (buf s)
           (spi s ++ [(to_byte op, to_byte d)]) (stray s).
Proof. reflexivity. Qed.

Lemma clear_loop_eq n : forall (k : nat) s,
  (k + n <= 8)%nat -> length (buf s) = 8%nat ->
  clear_loop n (Z.of_nat k) s =
  mkSevSeg (digits s) (pos s) (autoscrolling s)
           (take k (buf s) ++ replicate n 0 ++ drop (k + n) (buf s))
           (spi s ++ frames_from (Z.of_nat k + 1) (replicate n 0))
           (stray s).
Proof.
  induction n as [|n IH]; intros k s Hk Hlen.
  - cbn [clear_loop replicate frames_from app].
    rewrite Nat.add_0_r, app_nil_r, take_drop. destruct s; reflexivity.
  - cbn [clear_loop]. rewrite store_buf_in by lia. rewrite writeSPI_eq.
    cbn [digits pos autoscrolling buf spi stray].
    replace (Z.of_nat k + 1) with (Z.of_nat (S k)) by lia.
    rewrite IH; [| lia | cbn [buf]; rewrite length_insert; exact Hlen].
    cbn [digits pos autoscrolling buf spi stray].
    rewrite Nat2Z.id.
    rewrite (to_byte_small (Z.of_nat (S k))) by (unfold is_byte; lia).
    f_equal.
    + rewrite (take_S_r _ k 0) by (apply list_lookup_insert_eq; lia).
      rewrite take_insert_ge, drop_insert_lt by lia.
      rewrite <- app_assoc. cbn [app replicate].
      replace (S k + n)%nat with (k + S n)%nat by lia. reflexivity.
    + rewrite <- app_assoc. cbn [app replicate frames_from].
      replace (Z.of_nat (S k) + 1) with (Z.of_nat k + 1 + 1) by lia.
      replace (Z.of_nat (S k)) with (Z.of_nat k + 1) by lia.
      reflexivity.
Qed.

Lemma clear_eq s :
  length (buf s) = 8%nat ->
  clear s =
  mkSevSeg (digits s) 0 (autoscrolling s) (replicate 8 0)
           (spi s ++ [(1, 0); (2, 0); (3, 0); (4, 0);
                      (5, 0); (6, 0); (7, 0); (8, 0)])
           (stray s).
Proof.
  intros Hlen. unfold clear. change 0 with (Z.of_nat 0) at 2.
  rewrite clear_loop_eq by lia.
  rewrite take_0, drop_ge by lia. reflexivity.
Qed.

Lemma last_sent_app_digits r l :
  1 <= r <= 8 ->
  last_sent r (l ++ [(1, 0); (2, 0); (3, 0); (4, 0);
                     (5, 0); (6, 0); (7, 0); (8, 0)]) = Some 0.
Proof.
  intros Hr. unfold last_sent. rewrite foldl_app.
  generalize (foldl (fun acc f => if f.1 =? r then Some (f.2) else acc) None l).
  intros o.
  assert (r = 1 \/ r = 2 \/ r = 3 \/ r = 4 \/ r = 5 \/ r = 6 \/ r = 7 \/ r = 8)
    as Hcases by lia.
  destruct Hcases as [->|[->|[->|[->|[->|[->|[->| ->]]]]]]]; reflexivity.
Qed.

(** X1: clear, on an object with its 8 buffer entries, zeroes the whole
    buffer, sends 0 to the digit registers 1..8 in that order and nothing
    else, and puts the cursor at 0; the digit count and the autoscroll flag
    stay. Whatever was sent before, every digit register then holds 0 and the
    buffer mirrors the registers. *)
Theorem clear_blanks_all_digits s :
  length (buf s) = 8%nat ->
  buf (clear s) = replicate 8 0 /\
  spi (clear s) = spi s ++ [(1, 0); (2, 0); (3, 0); (4, 0);
                            (5, 0); (6, 0); (7, 0); (8, 0)] /\
  pos (clear s) = 0 /\
  digits (clear s) = digits s /\
  autoscrolling (clear s) = autoscrolling s /\
  stray (clear s) = stray s /\
  (forall r, 1 <= r <= 8 -> last_sent r (spi (clear s)) = Some 0) /\
  mirrors (clear s).
Proof.
  intros Hlen. rewrite (clear_eq s Hlen).
  cbn [buf spi pos digits autoscrolling stray].
  repeat (split; [reflexivity|]). split.
  - intros r Hr. apply last_sent_app_digits. exact Hr.
  - intros i d Hi. cbn [buf spi].
    rewrite last_sent_app_digits by lia. intros [= <-].
    rewrite lookup_replicate_2 by lia. reflexivity.
Qed.

Lemma clear_blanks_all_digits_witness :
  buf (clear (mkSevSeg 4 3 true [48; 109; 121; 7; 7; 7; 7; 7] [(1, 48)] [])) =
    [0; 0; 0; 0; 0; 0; 0; 0] /\
  pos (clear (mkSevSeg 4 3 true [48; 109; 121; 7; 7; 7; 7; 7] [(1, 48)] [])) = 0.
Proof.
  destruct (clear_blanks_all_digits
              (mkSevSeg 4 3 true [48; 109; 121; 7; 7; 7; 7; 7] [(1, 48)] []))
    as (H1 & _ & H2 & _); [reflexivity|].
  split; [exact H1 | exact H2].
Defined.

(** X2: begin(n), on an object with its 8 buffer entries, sends exactly 13
    frames: scan limit (register 0x0b) with n as a byte raised to at least 4,
    decode mode 0, the eight digit registers cleared, display test off,
    intensity 15, and last of all shutdown register 1 (display on). The
    buffer is zeroed and the cursor is 0; the member digit count and the
    autoscroll flag are what they were before the call. *)
Theorem begin_sends_init_sequence n s :
  length (buf s) = 8%nat ->
  begin n s =
  mkSevSeg (digits s) 0 (autoscrolling s) (replicate 8 0)
           (spi s ++ [(0x0b, Z.max (to_byte n) 4); (0x09, 0);
                      (1, 0); (2, 0); (3, 0); (4, 0);
                      (5, 0); (6, 0); (7, 0); (8, 0);
                      (0x0f, 0); (0x0a, 0x0f); (0x0c, 1)])
           (stray s).
Proof.
  intros Hlen. rewrite begin_unfold.
  assert ((if to_byte n <? 4 then 4 else to_byte n) = Z.max (to_byte n) 4) as ->.
  { destruct (Z.ltb_spec (to_byte n) 4); lia. }
  assert (to_byte (Z.max (to_byte n) 4) = Z.max (to_byte n) 4) as Hm.
  { apply to_byte_small. pose proof (to_byte_is_byte n). unfold is_byte in *. lia. }
  rewrite clear_eq by (rewrite !writeSPI_buf; exact Hlen).
  unfold display, brightness, noTestMode. rewrite !writeSPI_eq.
  cbn [digits pos autoscrolling buf spi stray]. rewrite Hm.
  rewrite <- !app_assoc. reflexivity.
Qed.

Lemma begin_sends_init_sequence_witness :
  spi (begin 2 (mkSevSeg 4 3 true [1; 2; 3; 4; 5; 6; 7; 8] [] [])) =
  [(0x0b, 4); (0x09, 0); (1, 0); (2, 0); (3, 0); (4, 0);
   (5, 0); (6, 0); (7, 0); (8, 0); (0x0f, 0); (0x0a, 0x0f); (0x0c, 1)].
Proof.
  rewrite (begin_sends_init_sequence 2
             (mkSevSeg 4 3 true [1; 2; 3; 4; 5; 6; 7; 8] [] []));
    reflexivity.
Defined.

(** ** brightness *)

Lemma land_0x0f_mod b : Z.land (to_byte b) 0x0f = b mod 16.
Proof.
  unfold to_byte. change 15 with (Z.ones 4). rewrite Z.land_ones by lia.
  change (2 ^ 4) with 16.
  apply Z.mod_mod_divide. exists 16. reflexivity.
Qed.

(** X3: brightness(b) sends one frame for the intensity register 0x0a whose
    data is b modulo 16, a value in 0..15, and changes nothing else: a level
    above 15 is wrapped (16 acts as 0), not clamped to the maximum, and two
    levels that agree modulo 16 send the same frame. *)
Theorem brightness_wraps_modulo_16 b s :
  brightness b s =
    mkSevSeg (digits s) (pos s) (autoscrolling s) (buf s)
             (spi s ++ [(0x0a, b mod 16)]) (stray s) /\
  0 <= b mod 16 <= 15 /\
  brightness (b + 16) s = brightness b s.
Proof.
  assert (forall x, brightness x s =
            mkSevSeg (digits s) (pos s) (autoscrolling s) (buf s)
                     (spi s ++ [(0x0a, x mod 16)]) (stray s)) as Heq.
  { intros x. unfold brightness. rewrite writeSPI_eq, land_0x0f_mod.
    rewrite (to_byte_small (x mod 16)); [reflexivity|].
    unfold is_byte. pose proof (Z.mod_pos_bound x 16). lia. }
  split; [apply Heq|]. split.
  - pose proof (Z.mod_pos_bound b 16). lia.
  - rewrite !Heq. replace (b + 16) with (b + 1 * 16) by lia.
    rewrite Z.mod_add by lia. reflexivity.
Qed.

(** ** write: one character *)

Lemma lookup_to_byte pat0 c dp : lookup pat0 (to_byte c) dp = lookup pat0 c dp.
Proof.
  rewrite <- (lookup_to_char pat0 (to_byte c)), to_char_to_byte.
  apply lookup_to_char.
Qed.

(** With the decimal point the pattern is the one without it, bit 7 set,
    for every character. *)
Lemma lookup_dp_always pat0 c :
  lookup pat0 c true = Z.lor (lookup pat0 c false) 0x80.
Proof.
  unfold lookup. apply to_byte_small, lor_0x80_is_byte.
  destruct ((32 <=? to_char c) && (to_char c <=? 125)); apply to_byte_is_byte.
Qed.

Lemma to_char_lor_to_char z : to_char (Z.lor (to_char z) 0x80) = to_char (Z.lor z 0x80).
Proof.
  rewrite <- (to_char_to_byte (Z.lor (to_char z) 128)).
  rewrite <- (to_char_to_byte (Z.lor z 128)).
  rewrite !to_byte_lor_0x80, to_byte_to_char. reflexivity.
Qed.

Lemma displayChar_out_of_range pat0 digit value dp s :
  is_char digit -> digit < 0 \/ Z.of_nat (length (buf s)) <= digit ->
  displayChar pat0 digit value dp s =
  mkSevSeg (digits s) (pos s) (autoscrolling s) (buf s)
           (spi s ++ [(to_byte (digit + 1), lookup pat0 value dp)])
           (stray s ++ [(A_buf, digit)]).
Proof.
  intros Hc Hout. unfold displayChar.
  rewrite (to_char_small digit Hc), lookup_to_char.
  unfold store_buf. rewrite store_out by exact Hout.
  rewrite writeSPI_eq. cbn [digits pos autoscrolling buf spi stray fst snd].
  rewrite (to_byte_small (lookup pat0 value dp)) by apply lookup_is_byte.
  reflexivity.
Qed.

Lemma write_plain_eq pat0 ch s :
  to_byte ch <> 46 ->
  autoscrolling s && (pos s =? digits s) = false ->
  0 <= pos s <= 7 -> length (buf s) = 8%nat ->
  write pat0 ch s =
  Ok (mkSevSeg (digits s) (pos s + 1) (autoscrolling s)
        (<[Z.to_nat (pos s) := to_char (lookup pat0 ch false)]> (buf s))
        (spi s ++ [(pos s + 1, lookup pat0 ch false)]) (stray s), 1).
Proof.
  intros Hne Hns Hpos Hlen. unfold write.
  replace (to_byte ch =? 46) with false by (symmetry; apply Z.eqb_neq; exact Hne).
  rewrite Hns.
  rewrite displayChar_in_range by (cbn [buf set_pos]; lia).
  cbn [digits pos autoscrolling buf spi stray set_pos].
  rewrite lookup_to_byte.
  rewrite (to_byte_small (pos s + 1)) by (unfold is_byte; lia).
  reflexivity.
Qed.

Lemma write_scroll_eq pat0 ch s :
  to_byte ch <> 46 ->
  autoscrolling s = true -> pos s = digits s ->
  1 <= digits s <= 8 -> length (buf s) = 8%nat ->
  write pat0 ch s =
  Ok (mkSevSeg (digits s) (pos s) (autoscrolling s)
        (take (Z.to_nat (digits s) - 1) (drop 1 (buf s))
           ++ [to_char (lookup pat0 ch false)]
           ++ drop (Z.to_nat (digits s)) (buf s))
        (spi s ++ frames_from 1 (take (Z.to_nat (digits s) - 1) (drop 1 (buf s)))
               ++ [(digits s, lookup pat0 ch false)])
        (stray s), 1).
Proof.
  intros Hne Hauto Hpos Hd Hlen. set (n := Z.to_nat (digits s)).
  destruct (lookup_lt_is_Some_2 (buf s) (n - 1)) as [x Hx]; [lia|].
  assert (length (take (n - 1) (drop 1 (buf s))) = (n - 1)%nat) as Hlt.
  { rewrite length_take, length_drop. lia. }
  unfold write.
  replace (to_byte ch =? 46) with false by (symmetry; apply Z.eqb_neq; exact Hne).
  rewrite Hauto, Hpos, Z.eqb_refl. cbn [andb].
  replace (Z.to_nat (digits s - 1)) with (n - 1)%nat by lia.
  rewrite scroll_loop_from_0 by lia. cbn [bind digits].
  rewrite displayChar_in_range;
    [| cbn [buf]; rewrite length_app, Hlt, length_drop; lia | lia].
  cbn [digits pos autoscrolling buf spi stray].
  rewrite lookup_to_byte, Hauto, Hpos.
  rewrite insert_app_r_alt by lia. rewrite Hlt.
  replace (Z.to_nat (digits s - 1) - (n - 1))%nat with 0%nat by lia.
  rewrite (drop_S (buf s) x (n - 1) Hx).
  replace (S (n - 1)) with n by lia.
  rewrite <- app_assoc. replace (digits s - 1 + 1) with (digits s) by lia.
  reflexivity.
Qed.

Lemma write_dot_eq pat0 ch s old :
  to_byte ch = 46 -> 0 <= pos s <= 8 -> length (buf s) = 8%nat ->
  buf s !! Z.to_nat (if 0 <? pos s then pos s - 1 else 0) = Some old ->
  write pat0 ch s =
  Ok (mkSevSeg (digits s) (pos s) (autoscrolling s)
        (<[Z.to_nat (if 0 <? pos s then pos s - 1 else 0) :=
             to_char (Z.lor old 0x80)]> (buf s))
        (spi s ++ [((if 0 <? pos s then pos s - 1 else 0) + 1,
                    Z.lor (to_byte old) 0x80)])
        (stray s), 1).
Proof.
  intros Hch Hpos Hlen Hold. set (p := if 0 <? pos s then pos s - 1 else 0) in *.
  assert (0 <= p <= 7) as Hp.
  { subst p. destruct (Z.ltb_spec 0 (pos s)); lia. }
  unfold write. rewrite Hch. change (46 =? 46) with true. cbv iota.
  fold p. rewrite (to_byte_small p) by (unfold is_byte; lia).
  rewrite (load_buf_in pat0 (buf s) p old) by (lia || exact Hold).
  rewrite store_buf_in by lia. rewrite writeSPI_eq.
  cbn [buf spi pos digits autoscrolling stray].
  rewrite to_byte_to_char, to_byte_lor_0x80.
  rewrite (to_byte_small (p + 1)) by (unfold is_byte; lia).
  reflexivity.
Qed.

(** X4: away from the autoscroll case and with the cursor on one of the
    eight buffer entries (0..7), write of a character other than the full
    stop stores lookup(ch, false) at the cursor, sends it to digit register
    cursor + 1 in one frame, moves the cursor one place on, leaves every
    other buffer entry alone and returns 1. *)
Theorem write_stores_at_cursor_and_advances pat0 ch s :
  to_byte ch <> 46 ->
  autoscrolling s && (pos s =? digits s) = false ->
  0 <= pos s <= 7 -> length (buf s) = 8%nat ->
  exists s',
    write pat0 ch s = Ok (s', 1) /\
    buf s' !! Z.to_nat (pos s) = Some (to_char (lookup pat0 ch false)) /\
    (forall j, j <> Z.to_nat (pos s) -> buf s' !! j = buf s !! j) /\
    spi s' = spi s ++ [(pos s + 1, lookup pat0 ch false)] /\
    pos s' = pos s + 1 /\
    digits s' = digits s /\
    autoscrolling s' = autoscrolling s /\
    stray s' = stray s.
Proof.
  intros Hne Hns Hpos Hlen. eexists. split.
  - apply write_plain_eq; assumption.
  - cbn [buf spi pos digits autoscrolling stray].
    split; [apply list_lookup_insert_eq; lia|].
    split; [intros j Hj; apply list_lookup_insert_ne; congruence|].
    repeat split.
Qed.

Lemma write_stores_at_cursor_and_advances_witness :
  exists s',
    write 0 65 (mkSevSeg 4 2 false [1; 2; 3; 4; 5; 6; 7; 8] [] []) = Ok (s', 1) /\
    buf s' = [1; 2; 119; 4; 5; 6; 7; 8] /\
    spi s' = [(3, 119)] /\
    pos s' = 3.
Proof.
  destruct (write_stores_at_cursor_and_advances 0 65
              (mkSevSeg 4 2 false [1; 2; 3; 4; 5; 6; 7; 8] [] []))
    as (s' & H1 & _ & _ & H3 & H4 & _);
    [vm_compute; discriminate | reflexivity | cbn; lia | reflexivity |].
  exists s'. split; [exact H1|].
  vm_compute in H1. injection H1 as <-. repeat split.
Defined.

(** X5: [write] has no upper bound on the cursor. Away from the autoscroll
    case and with the cursor from 8 to 127, write of a character other than
    the full stop stores past the 8-entry buffer (the monitor records the
    store at index cursor, and no buffer entry changes), sends the pattern
    to register cursor + 1, which is no digit register (with the cursor at 8
    it is register 9, the decode-mode register), and still moves the cursor
    on and returns 1. *)
Theorem write_past_buffer_hits_control_register pat0 ch s :
  to_byte ch <> 46 ->
  autoscrolling s && (pos s =? digits s) = false ->
  8 <= pos s <= 127 -> length (buf s) = 8%nat ->
  exists s',
    write pat0 ch s = Ok (s', 1) /\
    buf s' = buf s /\
    stray s' = stray s ++ [(A_buf, pos s)] /\
    spi s' = spi s ++ [(pos s + 1, lookup pat0 ch false)] /\
    ~ 1 <= pos s + 1 <= 8 /\
    (pos s = 8 -> pos s + 1 = MAX7219_REG_DECODE) /\
    pos s' = pos s + 1.
Proof.
  intros Hne Hns Hpos Hlen. eexists. split.
  - unfold write.
    replace (to_byte ch =? 46) with false
      by (symmetry; apply Z.eqb_neq; exact Hne).
    rewrite Hns. reflexivity.
  - rewrite displayChar_out_of_range
      by (unfold is_char; cbn [buf set_pos]; lia).
    cbn [digits pos autoscrolling buf spi stray set_pos].
    rewrite lookup_to_byte.
    rewrite !(to_byte_small (pos s + 1)) by (unfold is_byte; lia).
    split; [reflexivity|]. split; [reflexivity|]. split; [reflexivity|].
    split; [lia|]. split; [intros ->; reflexivity | reflexivity].
Qed.

Lemma write_past_buffer_hits_control_register_witness :
  exists s',
    write 0 65 (mkSevSeg 4 8 false [1; 2; 3; 4; 5; 6; 7; 8] [] []) = Ok (s', 1) /\
    buf s' = [1; 2; 3; 4; 5; 6; 7; 8] /\
    spi s' = [(9, 119)] /\
    stray s' = [(A_buf, 8)].
Proof.
  destruct (write_past_buffer_hits_control_register 0 65
              (mkSevSeg 4 8 false [1; 2; 3; 4; 5; 6; 7; 8] [] []))
    as (s' & H1 & H2 & H3 & H4 & _);
    [vm_compute; discriminate | reflexivity | cbn; lia | reflexivity |].
  exists s'. repeat split; assumption.
Defined.

(** X6: away from the autoscroll case and with the cursor in 0..7, writing a
    character other than the full stop and then a full stop leaves the buffer
    exactly as displayChar(cursor, ch, true) does: the full stop lands on the
    character just written. The stream sends two frames for that digit, the
    second with bit 7 set, where displayChar sends one. *)
Theorem write_char_then_dot_is_displayChar_with_dp pat0 pat1 ch s :
  to_byte ch <> 46 ->
  autoscrolling s && (pos s =? digits s) = false ->
  0 <= pos s <= 7 -> length (buf s) = 8%nat ->
  exists s1 s2,
    write pat0 ch s = Ok (s1, 1) /\
    write pat1 46 s1 = Ok (s2, 1) /\
    buf s2 = buf (displayChar pat0 (pos s) ch true s) /\
    spi s2 = spi s ++ [(pos s + 1, lookup pat0 ch false);
                       (pos s + 1, lookup pat0 ch true)] /\
    pos s2 = pos s + 1 /\
    stray s2 = stray s.
Proof.
  intros Hne Hns Hpos Hlen.
  eexists. eexists. split; [apply write_plain_eq; assumption|].
  split.
  - apply (write_dot_eq pat1 46 _ (to_char (lookup pat0 ch false)));
      cbn [pos buf]; try reflexivity; try lia.
    + rewrite length_insert. exact Hlen.
    + replace (0 <? pos s + 1) with true by (symmetry; apply Z.ltb_lt; lia).
      replace (pos s + 1 - 1) with (pos s) by lia.
      apply list_lookup_insert_eq. lia.
  - cbn [buf spi pos stray].
    replace (0 <? pos s + 1) with true by (symmetry; apply Z.ltb_lt; lia).
    replace (pos s + 1 - 1) with (pos s) by lia.
    rewrite displayChar_in_range by lia. cbn [buf].
    rewrite list_insert_insert_eq, to_char_lor_to_char, to_byte_to_char.
    rewrite <- lookup_dp_always.
    rewrite (to_byte_small (lookup pat0 ch false)) by apply lookup_is_byte.
    rewrite <- lookup_dp_always, <- app_assoc.
    repeat split.
Qed.

Lemma write_char_then_dot_is_displayChar_with_dp_witness :
  exists s1 s2,
    write 0 49 (mkSevSeg 4 0 false [1; 2; 3; 4; 5; 6; 7; 8] [] []) = Ok (s1, 1) /\
    write 0 46 s1 = Ok (s2, 1) /\
    buf s2 = buf (displayChar 0 0 49 true
                    (mkSevSeg 4 0 false [1; 2; 3; 4; 5; 6; 7; 8] [] [])).
Proof.
  destruct (write_char_then_dot_is_displayChar_with_dp 0 0 49
              (mkSevSeg 4 0 false [1; 2; 3; 4; 5; 6; 7; 8] [] []))
    as (s1 & s2 & H1 & H2 & H3 & _);
    [vm_compute; discriminate | reflexivity | cbn; lia | reflexivity |].
  exists s1, s2. repeat split; assumption.
Defined.

(** ** write: streams with autoscroll *)

Lemma write_autoscroll_step pat0 ch s :
  autoscrolling s = true -> 1 <= digits s <= 8 -> 0 <= pos s <= digits s ->
  length (buf s) = 8%nat ->
  exists s',
    write pat0 ch s = Ok (s', 1) /\
    autoscrolling s' = true /\ digits s' = digits s /\
    pos s <= pos s' <= digits s /\
    length (buf s') = 8%nat /\ stray s' = stray s.
Proof.
  intros Hauto Hd Hpos Hlen.
  destruct (Z.eq_dec (to_byte ch) 46) as [Hdot|Hne].
  - destruct (lookup_lt_is_Some_2 (buf s)
                (Z.to_nat (if 0 <? pos s then pos s - 1 else 0))) as [old Hold].
    { destruct (Z.ltb_spec 0 (pos s)); lia. }
    eexists. split; [apply (write_dot_eq pat0 ch s old); (assumption || lia)|].
    cbn [digits pos autoscrolling buf stray]. rewrite length_insert.
    repeat split; (assumption || lia).
  - destruct (Z.eq_dec (pos s) (digits s)) as [Heq|Hneq].
    + eexists. split; [apply write_scroll_eq; assumption|].
      cbn [digits pos autoscrolling buf stray].
      rewrite !length_app, length_take, !length_drop. cbn [length].
      repeat split; (assumption || lia).
    + eexists. split.
      * apply write_plain_eq; try assumption; try lia.
      * cbn [digits pos autoscrolling buf stray]. rewrite length_insert.
        repeat split; (assumption || lia).
Qed.

(** X7: with autoscroll on, a digit count from 1 to 8 and the cursor not
    beyond the digit count, any stream of characters (full stops included)
    can be written: every call returns, no store leaves the buffer, and the
    cursor never passes the digit count. *)
Theorem writes_with_autoscroll_stay_in_buffer pats text : forall i s,
  autoscrolling s = true -> 1 <= digits s <= 8 -> 0 <= pos s <= digits s ->
  length (buf s) = 8%nat ->
  exists s',
    writes pats i text s = Ok s' /\
    autoscrolling s' = true /\ digits s' = digits s /\
    pos s <= pos s' <= digits s /\
    length (buf s') = 8%nat /\ stray s' = stray s.
Proof.
  induction text as [|c rest IH]; intros i s Hauto Hd Hpos Hlen.
  - exists s. cbn [writes]. repeat split; (assumption || lia).
  - destruct (write_autoscroll_step (pats i) c s Hauto Hd Hpos Hlen)
      as (s1 & Hw & Ha1 & Hd1 & Hp1 & Hl1 & Hs1).
    destruct (IH (i + 1) s1) as (s' & Hws & Ha & Hd' & Hp & Hl & Hs);
      try assumption; try lia.
    exists s'. cbn [writes]. rewrite Hw. cbn [bind fst].
    split; [exact Hws|]. split; [exact Ha|].
    split; [congruence|]. split; [lia|]. split; [exact Hl | congruence].
Qed.

Lemma writes_with_autoscroll_stay_in_buffer_witness :
  exists s',
    writes (fun _ => 0) 0 (cstring "12.345.6789")
           (mkSevSeg 4 0 true [0; 0; 0; 0; 0; 0; 0; 0] [] []) = Ok s' /\
    pos s' <= 4 /\ stray s' = [].
Proof.
  destruct (writes_with_autoscroll_stay_in_buffer (fun _ => 0)
              (cstring "12.345.6789") 0
              (mkSevSeg 4 0 true [0; 0; 0; 0; 0; 0; 0; 0] [] []))
    as (s' & H1 & _ & H2 & H3 & _ & H4);
    [reflexivity | cbn; lia | cbn; lia | reflexivity |].
  exists s'. split; [exact H1|]. split; [apply H3 | exact H4].
Defined.

Lemma slot_glyphs_length pats slots : forall i,
  length (slot_glyphs pats i slots) = length slots.
Proof.
  induction slots as [|sl rest IH]; intros i; [reflexivity|].
  cbn [slot_glyphs length]. rewrite IH. reflexivity.
Qed.

Lemma plain_slots_length text : length (plain_slots text) = length text.
Proof. unfold plain_slots. induction text; cbn; congruence. Qed.

(** The state of a scrolling display after [shown] has been written: the
    cursor is min(|shown|, n), and the entries before it are the last
    glyphs of [shown]. *)
Lemma writes_scroll_shows_last pats text : forall i s shown,
  Forall (fun c => to_byte c <> 46) text ->
  autoscrolling s = true -> 1 <= digits s <= 8 -> length (buf s) = 8%nat ->
  pos s = Z.of_nat (length shown `min` Z.to_nat (digits s)) ->
  take (length shown `min` Z.to_nat (digits s)) (buf s) =
    drop (length shown - length shown `min` Z.to_nat (digits s)) shown ->
  exists s',
    writes pats i text s = Ok s' /\
    pos s' = Z.of_nat (length (shown ++ slot_glyphs pats i (plain_slots text))
                         `min` Z.to_nat (digits s)) /\
    take (length (shown ++ slot_glyphs pats i (plain_slots text))
            `min` Z.to_nat (digits s)) (buf s') =
      drop (length (shown ++ slot_glyphs pats i (plain_slots text))
            - length (shown ++ slot_glyphs pats i (plain_slots text))
                `min` Z.to_nat (digits s))
           (shown ++ slot_glyphs pats i (plain_slots text)) /\
    drop (Z.to_nat (digits s)) (buf s') = drop (Z.to_nat (digits s)) (buf s) /\
    stray s' = stray s.
Proof.
  induction text as [|c rest IH]; intros i s shown Hnd Hauto Hd Hlen Hpos Htake.
  - exists s. cbn [writes plain_slots map slot_glyphs]. rewrite app_nil_r.
    repeat split; assumption.
  - apply Forall_cons in Hnd. destruct Hnd as [Hc Hnd].
    set (n := Z.to_nat (digits s)) in *.
    set (g := to_char (lookup (pats i) c false)).
    cbn [writes plain_slots map slot_glyphs fst snd]. fold (plain_slots rest).
    fold g.
    replace (shown ++ g :: slot_glyphs pats (i + 1) (plain_slots rest))
      with ((shown ++ [g]) ++ slot_glyphs pats (i + 1) (plain_slots rest))
      by (rewrite <- app_assoc; reflexivity).
    destruct (le_lt_dec n (length shown)) as [Hfull|Hroom].
    + (* the display is full: scroll *)
      replace (length shown `min` n)%nat with n in * by lia.
      rewrite write_scroll_eq by (assumption || lia).
      cbn [bind fst]. fold n. fold g.
      match goal with
      | |- exists s', writes _ _ _ ?s1 = _ /\ _ =>
          destruct (IH (i + 1) s1 (shown ++ [g])) as (s' & Hw & Hp & Ht & Hdr & Hs)
      end; cbn [digits pos autoscrolling buf stray]; fold n;
        try assumption.
      * rewrite !length_app, length_take, !length_drop. cbn [length]. lia.
      * rewrite length_app. cbn [length]. lia.
      * rewrite length_app. cbn [length].
        replace ((length shown + 1) `min` n)%nat with n by lia.
        assert (length (take (n - 1) (drop 1 (buf s))) = (n - 1)%nat) as Hlt.
        { rewrite length_take, length_drop. lia. }
        rewrite (app_assoc _ [g]).
        rewrite take_app_length' by (rewrite length_app, Hlt; cbn [length]; lia).
        rewrite drop_app_le by lia. f_equal.
        rewrite take_drop_commute.
        replace (1 + (n - 1))%nat with n by lia.
        rewrite Htake, drop_drop. f_equal. lia.
      * exists s'. cbn [digits] in *. fold n in Hp, Ht, Hdr.
        split; [exact Hw|]. split; [exact Hp|]. split; [exact Ht|].
        split; [|exact Hs].
        rewrite Hdr. rewrite (app_assoc _ [g]).
        apply drop_app_length'.
        rewrite length_app, length_take, length_drop. cbn [length]. lia.
    + (* there is room: store at the cursor *)
      replace (length shown `min` n)%nat with (length shown) in * by lia.
      rewrite Nat.sub_diag, drop_0 in Htake.
      rewrite write_plain_eq; try assumption; try lia.
      cbn [bind fst]. fold g. rewrite Hpos, Nat2Z.id.
      match goal with
      | |- exists s', writes _ _ _ ?s1 = _ /\ _ =>
          destruct (IH (i + 1) s1 (shown ++ [g])) as (s' & Hw & Hp & Ht & Hdr & Hs)
      end; cbn [digits pos autoscrolling buf stray]; fold n;
        try assumption.
      * rewrite length_insert. exact Hlen.
      * rewrite length_app. cbn [length]. lia.
      * rewrite length_app. cbn [length].
        replace ((length shown + 1) `min` n)%nat with (length shown + 1)%nat by lia.
        rewrite Nat.sub_diag, drop_0.
        replace (length shown + 1)%nat with (S (length shown)) by lia.
        rewrite (take_S_r _ _ g) by (apply list_lookup_insert_eq; lia).
        rewrite take_insert_ge by lia. rewrite Htake. reflexivity.
      * exists s'. cbn [digits] in *. fold n in Hp, Ht, Hdr.
        split; [exact Hw|]. split; [exact Hp|]. split; [exact Ht|].
        split; [|exact Hs].
        rewrite Hdr. apply drop_insert_lt. lia.
Qed.

(** X8: autoscroll shows the end of the stream. Starting with the cursor at
    0, autoscroll on and a digit count n from 1 to 8, after a stream of
    characters without full stops has been written the cursor is
    m = min(length, n), buffer entries 0..m-1 hold the glyphs of the last m
    characters in order, and the entries from n on are untouched. *)
Theorem writes_autoscroll_show_last_characters pats text s :
  Forall (fun c => to_byte c <> 46) text ->
  autoscrolling s = true -> 1 <= digits s <= 8 -> length (buf s) = 8%nat ->
  pos s = 0 ->
  let n := Z.to_nat (digits s) in
  let m := (length text `min` n)%nat in
  exists s',
    writes pats 0 text s = Ok s' /\
    pos s' = Z.of_nat m /\
    take m (buf s') =
      drop (length text - m) (slot_glyphs pats 0 (plain_slots text)) /\
    drop n (buf s') = drop n (buf s) /\
    stray s' = stray s.
Proof.
  intros Hnd Hauto Hd Hlen Hpos n m.
  destruct (writes_scroll_shows_last pats text 0 s [] Hnd Hauto Hd Hlen)
    as (s' & Hw & Hp & Ht & Hdr & Hs).
  - rewrite Hpos. reflexivity.
  - reflexivity.
  - cbn [app] in Hp, Ht.
    rewrite slot_glyphs_length, plain_slots_length in Hp, Ht.
    exists s'. repeat split; assumption.
Qed.

Lemma writes_autoscroll_show_last_characters_witness :
  exists s',
    writes (fun _ => 0) 0 (cstring "123456")
           (mkSevSeg 4 0 true [9; 9; 9; 9; 9; 9; 9; 9] [] []) = Ok s' /\
    pos s' = 4 /\
    take 4 (buf s') = drop 2 (slot_glyphs (fun _ => 0) 0
                                (plain_slots (cstring "123456"))).
Proof.
  destruct (writes_autoscroll_show_last_characters (fun _ => 0)
              (cstring "123456")
              (mkSevSeg 4 0 true [9; 9; 9; 9; 9; 9; 9; 9] [] []))
    as (s' & H1 & H2 & H3 & _);
    [ repeat constructor; vm_compute; discriminate
    | reflexivity | cbn; lia | reflexivity | reflexivity |].
  exists s'. repeat split; assumption.
Defined.

(** ** displayText: the window it writes *)

Lemma render_window pats (rj : bool) dc sc (o : nat) : forall slots (i : nat) s,
  (forall idx, (if rj then dc - sc + idx else idx) = Z.of_nat o + idx) ->
  (o + i + length slots <= 8)%nat -> length (buf s) = 8%nat ->
  render pats rj dc sc (Z.of_nat i) slots s =
  mkSevSeg (digits s) (pos s) (autoscrolling s)
           (take (o + i) (buf s) ++ slot_glyphs pats (Z.of_nat i) slots
              ++ drop (o + i + length slots) (buf s))
           (spi s ++ slot_frames pats (Z.of_nat o) (Z.of_nat i) slots)
           (stray s).
Proof.
  induction slots as [|sl rest IH]; intros i s Ht Hfit Hlen.
  - cbn [render slot_glyphs slot_frames length app].
    rewrite Nat.add_0_r, app_nil_r, take_drop. destruct s; reflexivity.
  - cbn [length] in Hfit. cbn [render slot_glyphs slot_frames length].
    rewrite Ht.
    rewrite displayChar_in_range by lia.
    replace (Z.of_nat i + 1) with (Z.of_nat (S i)) by lia.
    rewrite IH; [| exact Ht | lia | cbn [buf]; rewrite length_insert; exact Hlen].
    cbn [digits pos autoscrolling buf spi stray].
    replace (Z.to_nat (Z.of_nat o + Z.of_nat i)) with (o + i)%nat by lia.
    f_equal.
    + replace (o + S i)%nat with (S (o + i)) by lia.
      rewrite (take_S_r _ (o + i) (to_char (lookup (pats (Z.of_nat i)) (sl.1) (sl.2))))
        by (apply list_lookup_insert_eq; lia).
      rewrite take_insert_ge, drop_insert_lt by lia.
      rewrite <- app_assoc. cbn [app].
      replace (S (o + i) + length rest)%nat with (o + i + S (length rest))%nat
        by lia.
      reflexivity.
    + rewrite <- app_assoc. cbn [app].
      replace (Z.of_nat (S i)) with (Z.of_nat i + 1) by lia. reflexivity.
Qed.

Lemma displayText_window_eq pats text (rj : bool) s :
  0 <= digits s <= 8 -> length (buf s) = 8%nat ->
  let slots := take (Z.to_nat (digits s)) (compact (take 16 text) []) in
  let off := if rj then (Z.to_nat (digits s) - length slots)%nat else 0%nat in
  displayText pats text rj s =
  Ok (mkSevSeg (digits s) (pos s) (autoscrolling s)
        (take off (buf s) ++ slot_glyphs pats 0 slots
           ++ drop (off + length slots) (buf s))
        (spi s ++ slot_frames pats (Z.of_nat off) 0 slots)
        (stray s ++ replicate (leading_dots (take 16 text)) (A_decimal, -1))).
Proof.
  intros Hd Hlen slots off.
  rewrite displayText_refines_spec. unfold displayText_spec.
  cbn [digits log_stray]. fold slots.
  assert (length slots <= Z.to_nat (digits s))%nat as Hk.
  { subst slots. rewrite length_take. lia. }
  change 0 with (Z.of_nat 0).
  rewrite (render_window pats rj (digits s) (Z.of_nat (length slots)) off).
  - cbn [digits pos autoscrolling buf spi stray log_stray].
    rewrite Nat.add_0_r. reflexivity.
  - intros idx. subst off. destruct rj; lia.
  - subst off. destruct rj; lia.
  - exact Hlen.
Qed.

(** X10: for a text whose length an [int] holds, on an object with 8 buffer
    entries and a digit count n of at most 8, displayText writes one window
    of the buffer and nothing else. With k
    the number of slots kept (at most n), the window starts at 0 (left
    justified) or at n - k (right justified); its k entries become the
    glyphs of the slots in order, every entry before and after it keeps its
    old content (the display is not blanked first), and slot i is sent to
    register window start + i + 1. *)
Theorem displayText_writes_one_window pats text (rj : bool) s :
  fits_int text ->
  0 <= digits s <= 8 -> length (buf s) = 8%nat ->
  let slots := take (Z.to_nat (digits s)) (compact (take 16 text) []) in
  let k := length slots in
  let off := if rj then (Z.to_nat (digits s) - k)%nat else 0%nat in
  exists s',
    displayText pats text rj s = Ok s' /\
    buf s' = take off (buf s) ++ slot_glyphs pats 0 slots
               ++ drop (off + k) (buf s) /\
    (off + k <= Z.to_nat (digits s))%nat /\
    (forall j, (j < off \/ off + k <= j)%nat -> buf s' !! j = buf s !! j) /\
    (forall j, (j < k)%nat ->
       buf s' !! (off + j)%nat = slot_glyphs pats 0 slots !! j) /\
    spi s' = spi s ++ slot_frames pats (Z.of_nat off) 0 slots.
Proof.
  intros _ Hd Hlen slots k off.
  assert (k <= Z.to_nat (digits s))%nat as Hk.
  { subst k slots. rewrite length_take. lia. }
  assert (off + k <= Z.to_nat (digits s))%nat as Hok.
  { subst off. destruct rj; lia. }
  eexists. split; [apply displayText_window_eq; assumption|].
  fold slots. fold k. fold off. cbn [buf spi].
  assert (length (take off (buf s)) = off) as Hlo.
  { rewrite length_take. lia. }
  assert (length (slot_glyphs pats 0 slots) = k) as Hlg.
  { apply slot_glyphs_length. }
  split; [reflexivity|]. split; [exact Hok|]. split; [|split; [|reflexivity]].
  - intros j [Hj|Hj].
    + rewrite lookup_app_l by lia. apply lookup_take_lt. exact Hj.
    + rewrite lookup_app_r by lia. rewrite lookup_app_r by lia.
      rewrite lookup_drop, Hlo, Hlg. f_equal. lia.
  - intros j Hj. rewrite lookup_app_r by lia.
    rewrite lookup_app_l by lia. f_equal. lia.
Qed.

Lemma displayText_writes_one_window_witness :
  fits_int (cstring "1.2") /\
  exists s',
    displayText (fun _ => 0) (cstring "1.2") true
      (mkSevSeg 4 0 false [1; 2; 3; 4; 5; 6; 7; 8] [] []) = Ok s' /\
    buf s' = [1; 2; -80; 109; 5; 6; 7; 8] /\
    spi s' = [(3, 176); (4, 109)].
Proof.
  assert (fits_int (cstring "1.2")) as Hfit.
  { unfold fits_int. cbn. lia. }
  split; [exact Hfit|].
  destruct (displayText_writes_one_window (fun _ => 0) (cstring "1.2") true
              (mkSevSeg 4 0 false [1; 2; 3; 4; 5; 6; 7; 8] [] []))
    as (s' & H1 & H2 & _ & _ & _ & H3); [exact Hfit | cbn; lia | reflexivity |].
  exists s'. repeat split; assumption.
Defined.

Lemma compact_plain text : forall slots,
  Forall (fun c => c <> 46) text ->
  compact text slots = slots ++ plain_slots text.
Proof.
  induction text as [|c rest IH]; intros slots Hnd.
  - cbn. rewrite app_nil_r. reflexivity.
  - apply Forall_cons in Hnd. destruct Hnd as [Hc Hnd].
    cbn [compact plain_slots map].
    replace (c =? 46) with false by (symmetry; apply Z.eqb_neq; exact Hc).
    rewrite IH by exact Hnd. rewrite <- app_assoc. reflexivity.
Qed.

Lemma leading_dots_plain text :
  Forall (fun c => c <> 46) text -> leading_dots text = 0%nat.
Proof.
  destruct text as [|c rest]; [reflexivity|].
  intros Hnd. apply Forall_cons in Hnd. destruct Hnd as [Hc _].
  cbn [leading_dots].
  replace (c =? 46) with false by (symmetry; apply Z.eqb_neq; exact Hc).
  reflexivity.
Qed.

Lemma writes_plain_eq pats text : forall i (p : nat) s,
  Forall (fun c => to_byte c <> 46) text ->
  pos s = Z.of_nat p -> (p + length text <= 8)%nat ->
  autoscrolling s = false \/ Z.of_nat (p + length text) <= digits s ->
  length (buf s) = 8%nat ->
  writes pats i text s =
  Ok (mkSevSeg (digits s) (pos s + Z.of_nat (length text)) (autoscrolling s)
        (take p (buf s) ++ slot_glyphs pats i (plain_slots text)
           ++ drop (p + length text) (buf s))
        (spi s ++ slot_frames pats (Z.of_nat p - i) i (plain_slots text))
        (stray s)).
Proof.
  induction text as [|c rest IH]; intros i p s Hnd Hpos Hfit Hns Hlen.
  - cbn [writes plain_slots map slot_glyphs slot_frames length app].
    rewrite Nat.add_0_r, Z.add_0_r, app_nil_r, take_drop.
    destruct s; reflexivity.
  - apply Forall_cons in Hnd. destruct Hnd as [Hc Hnd].
    cbn [length] in Hfit, Hns.
    cbn [writes plain_slots map slot_glyphs slot_frames length fst snd].
    fold (plain_slots rest).
    rewrite write_plain_eq; try assumption; try lia.
    2:{ apply andb_false_iff. destruct Hns as [->|Hns]; [left; reflexivity|].
        right. apply Z.eqb_neq. lia. }
    cbn [bind fst].
    rewrite (IH (i + 1) (S p));
      cbn [digits pos autoscrolling buf spi stray];
      [| exact Hnd | lia | lia
       | destruct Hns as [Hns|Hns]; [left; exact Hns | right; lia]
       | rewrite length_insert; exact Hlen].
    rewrite Hpos, Nat2Z.id. f_equal. f_equal.
    + lia.
    + rewrite (take_S_r _ p (to_char (lookup (pats i) c false)))
        by (apply list_lookup_insert_eq; lia).
      rewrite take_insert_ge, drop_insert_lt by lia.
      rewrite <- app_assoc. cbn [app].
      replace (S p + length rest)%nat with (p + S (length rest))%nat by lia.
      reflexivity.
    + rewrite <- app_assoc. cbn [app].
      replace (Z.of_nat (S p) - (i + 1)) with (Z.of_nat p - i) by lia.
      replace (Z.of_nat p - i + i + 1) with (Z.of_nat p + 1) by lia.
      reflexivity.
Qed.

(** X9: for a text without full stops that fits the display (length at most
    the digit count, which is at most 8), writing the characters one by one
    from cursor 0 and displayText, left justified, leave the same buffer and
    send the same frames; they differ in the cursor, which the stream moves
    to the length of the text and displayText leaves at 0. *)
Theorem writes_agree_with_displayText pats text s :
  Forall (fun c => to_byte c <> 46) text ->
  Z.of_nat (length text) <= digits s <= 8 ->
  pos s = 0 -> length (buf s) = 8%nat ->
  exists s1 s2,
    writes pats 0 text s = Ok s1 /\
    displayText pats text false s = Ok s2 /\
    buf s1 = buf s2 /\
    spi s1 = spi s2 /\
    stray s1 = stray s2 /\
    pos s1 = Z.of_nat (length text) /\
    pos s2 = 0.
Proof.
  intros Hnd Hfit Hpos Hlen.
  assert (Forall (fun c => c <> 46) text) as Hnd'.
  { eapply Forall_impl; [exact Hnd|]. intros c Hc ->. apply Hc. reflexivity. }
  eexists. eexists.
  split; [apply (writes_plain_eq pats text 0 0%nat s); (assumption || lia)|].
  split; [apply displayText_window_eq; lia|].
  rewrite (take_ge text 16) by lia.
  rewrite (compact_plain text [] Hnd'). cbn [app].
  rewrite (take_ge (plain_slots text)) by (rewrite plain_slots_length; lia).
  rewrite (leading_dots_plain text Hnd').
  cbn [buf spi stray pos replicate]. rewrite plain_slots_length, app_nil_r.
  rewrite Hpos. repeat split.
Qed.

Lemma writes_agree_with_displayText_witness :
  exists s1 s2,
    writes (fun _ => 0) 0 (cstring "AbC")
      (mkSevSeg 4 0 true [1; 2; 3; 4; 5; 6; 7; 8] [] []) = Ok s1 /\
    displayText (fun _ => 0) (cstring "AbC") false
      (mkSevSeg 4 0 true [1; 2; 3; 4; 5; 6; 7; 8] [] []) = Ok s2 /\
    buf s1 = buf s2 /\ spi s1 = spi s2.
Proof.
  destruct (writes_agree_with_displayText (fun _ => 0) (cstring "AbC")
              (mkSevSeg 4 0 true [1; 2; 3; 4; 5; 6; 7; 8] [] []))
    as (s1 & s2 & H1 & H2 & H3 & H4 & _);
    [ repeat constructor; vm_compute; discriminate
    | cbn; lia | reflexivity | reflexivity |].
  exists s1, s2. repeat split; assumption.
Defined.

Lemma compact_dots text :
  Forall (fun c => c = 46) text -> compact text [] = [].
Proof.
  induction text as [|c rest IH]; intros Hd; [reflexivity|].
  apply Forall_cons in Hd. destruct Hd as [-> Hd].
  cbn [compact]. change (46 =? 46) with true. cbv iota.
  change (mark_last []) with (@nil (Z * bool)). apply IH. exact Hd.
Qed.

Lemma leading_dots_dots text :
  Forall (fun c => c = 46) text -> leading_dots text = length text.
Proof.
  induction text as [|c rest IH]; intros Hd; [reflexivity|].
  apply Forall_cons in Hd. destruct Hd as [-> Hd].
  cbn [leading_dots length]. change (46 =? 46) with true. cbv iota.
  rewrite IH by exact Hd. reflexivity.
Qed.

(** X11: a text with no character other than the full stop (and a length
    that an [int] holds) displays nothing: displayText returns without
    sending a frame and without changing the buffer, the cursor, the digit
    count or the autoscroll flag, for either justification. What it does do
    is the store [decimal[-1] = true] of C3, outside the array, once for
    each of the first 16 full stops, and no other store outside an array;
    only the empty text goes without. *)
Theorem displayText_of_dots_shows_nothing pats text rj s :
  fits_int text ->
  Forall (fun c => c = 46) text ->
  exists s',
    displayText pats text rj s = Ok s' /\
    buf s' = buf s /\ spi s' = spi s /\ pos s' = pos s /\
    digits s' = digits s /\ autoscrolling s' = autoscrolling s /\
    stray s' =
      stray s ++ replicate (Nat.min 16 (length text)) (A_decimal, -1) /\
    (text <> [] -> stray s' <> stray s).
Proof.
  intros _ Hd. rewrite displayText_refines_spec. unfold displayText_spec.
  rewrite compact_dots by (apply Forall_take; exact Hd).
  rewrite take_nil. cbn [render length]. eexists. split; [reflexivity|].
  rewrite leading_dots_dots by (apply Forall_take; exact Hd).
  rewrite length_take. cbn [buf spi pos digits autoscrolling stray log_stray].
  repeat split.
  intros Hne Heq. destruct text as [|c rest]; [congruence|].
  apply (f_equal (@length _)) in Heq.
  rewrite length_app, length_replicate in Heq. cbn [length] in Heq. lia.
Qed.

Lemma displayText_of_dots_shows_nothing_witness :
  fits_int (cstring "...") /\
  exists s',
    displayText (fun _ => 0) (cstring "...") true
      (mkSevSeg 4 2 false [1; 2; 3; 4; 5; 6; 7; 8] [(1, 1)] []) = Ok s' /\
    buf s' = [1; 2; 3; 4; 5; 6; 7; 8] /\ spi s' = [(1, 1)] /\
    stray s' = [(A_decimal, -1); (A_decimal, -1); (A_decimal, -1)].
Proof.
  assert (fits_int (cstring "...")) as Hfit.
  { unfold fits_int. cbn. lia. }
  split; [exact Hfit|].
  destruct (displayText_of_dots_shows_nothing (fun _ => 0) (cstring "...") true
              (mkSevSeg 4 2 false [1; 2; 3; 4; 5; 6; 7; 8] [(1, 1)] []))
    as (s' & H1 & H2 & H3 & _ & _ & _ & H4 & _);
    [exact Hfit | repeat constructor |].
  exists s'. repeat split; assumption.
Defined.

(** ** The font *)

Lemma lookup_glyph pat0 c :
  32 <= c <= 125 ->
  lookup pat0 c false = rotr8 (pgm_read_byte_near (c - 32)).
Proof. intros Hc. apply (lookup_in_range pat0 c false Hc). Qed.

(** X12: the ten digits have ten different patterns, none of them blank and
    none with the decimal-point bit (bit 7): two digit characters with the
    same lookup(c, false) are the same character. *)
Theorem lookup_digits_distinct pat0 pat1 c1 c2 :
  48 <= c1 <= 57 -> 48 <= c2 <= 57 ->
  (lookup pat0 c1 false = lookup pat1 c2 false -> c1 = c2) /\
  lookup pat0 c1 false <> 0 /\
  Z.testbit (lookup pat0 c1 false) 7 = false.
Proof.
  intros H1 H2. rewrite !lookup_glyph by lia.
  assert (Forall (fun a =>
            rotr8 (pgm_read_byte_near (a - 32)) <> 0 /\
            Z.testbit (rotr8 (pgm_read_byte_near (a - 32))) 7 = false /\
            Forall (fun b =>
              rotr8 (pgm_read_byte_near (a - 32)) =
              rotr8 (pgm_read_byte_near (b - 32)) -> a = b) (seqZ 48 10))
          (seqZ 48 10)) as Hall.
  { match goal with |- ?P => apply (bool_decide_eq_true_1 P) end.
    vm_compute. reflexivity. }
  rewrite Forall_seqZ in Hall.
  destruct (Hall c1 ltac:(lia)) as (Hnz & Hb7 & Hinj).
  rewrite Forall_seqZ in Hinj.
  split; [apply Hinj; lia|]. split; [exact Hnz | exact Hb7].
Qed.

Lemma lookup_digits_distinct_witness :
  (lookup 0 53 false = lookup 9 54 false -> 53 = 54) /\
  lookup 0 53 false <> 0.
Proof.
  destruct (lookup_digits_distinct 0 9 53 54) as (H1 & H2 & _); [lia | lia |].
  split; [exact H1 | exact H2].
Defined.

(** X13: among the characters of the table (space to closing brace),
    lookup(c, false) lights the decimal point (bit 7) for exactly three: the
    exclamation mark, the full stop and the question mark, whose table
    entries have the low bit set; every other character leaves bit 7 to the
    dp flag. *)
Theorem lookup_decimal_point_bit_without_dp pat0 c :
  32 <= c <= 125 ->
  (Z.testbit (lookup pat0 c false) 7 = true <-> c = 33 \/ c = 46 \/ c = 63).
Proof.
  intros Hc. rewrite lookup_glyph by lia.
  assert (Forall (fun a =>
            Z.testbit (rotr8 (pgm_read_byte_near (a - 32))) 7 = true <->
            a = 33 \/ a = 46 \/ a = 63) (seqZ 32 94)) as Hall.
  { match goal with |- ?P => apply (bool_decide_eq_true_1 P) end.
    vm_compute. reflexivity. }
  rewrite Forall_seqZ in Hall. apply Hall. lia.
Qed.

Lemma lookup_decimal_point_bit_without_dp_witness :
  Z.testbit (lookup 0 63 false) 7 = true /\
  Z.testbit (lookup 0 65 false) 7 <> true.
Proof.
  split.
  - apply (lookup_decimal_point_bit_without_dp 0 63); lia.
  - intros H. apply (lookup_decimal_point_bit_without_dp 0 65) in H; lia.
Defined.

(** X14: among the characters of the table, lookup(c, false) is blank (0)
    for exactly nineteen: the space, the dollar sign, percent, ampersand,
    asterisk, plus, comma, slash, colon, semicolon, less-than, greater-than,
    V, W, X, the caret, v, w and x. Every other character of the table
    lights at least one segment. *)
Theorem lookup_blank_characters pat0 c :
  32 <= c <= 125 ->
  (lookup pat0 c false = 0 <->
   c ∈ [32; 36; 37; 38; 42; 43; 44; 47; 58; 59; 60; 62;
        86; 87; 88; 94; 118; 119; 120]).
Proof.
  intros Hc. rewrite lookup_glyph by lia.
  assert (Forall (fun a =>
            rotr8 (pgm_read_byte_near (a - 32)) = 0 <->
            a ∈ [32; 36; 37; 38; 42; 43; 44; 47; 58; 59; 60; 62;
                 86; 87; 88; 94; 118; 119; 120]) (seqZ 32 94)) as Hall.
  { match goal with |- ?P => apply (bool_decide_eq_true_1 P) end.
    vm_compute. reflexivity. }
  rewrite Forall_seqZ in Hall. apply Hall. lia.
Qed.

Lemma lookup_blank_characters_witness :
  lookup 0 87 false = 0 /\ lookup 0 85 false <> 0.
Proof.
  split.
  - apply (lookup_blank_characters 0 87); [lia|].
    repeat (first [apply list_elem_of_here | apply list_elem_of_further]).
  - intros H. apply (lookup_blank_characters 0 85) in H; [|lia].
    repeat (apply elem_of_cons in H; destruct H as [H|H]; [lia|]).
    apply elem_of_nil in H. exact H.
Defined.

(** ** The digit count and the cursor *)

(** The monitor only grows: what a store outside an array has left there
    stays. *)
Lemma clear_loop_stray n : forall i s,
  exists m, stray (clear_loop n i s) = stray s ++ m.
Proof.
  induction n as [|n IH]; intros i s.
  - exists []. rewrite app_nil_r. reflexivity.
  - cbn [clear_loop].
    destruct (IH (i + 1) (writeSPI (i + 1) 0 (store_buf i 0 s))) as [m Hm].
    rewrite Hm. unfold writeSPI, store_buf. cbn [stray].
    rewrite <- app_assoc. eexists. reflexivity.
Qed.

Lemma scroll_loop_stray pat0 n : forall i s,
  exists m, stray (scroll_loop pat0 n i s) = stray s ++ m.
Proof.
  induction n as [|n IH]; intros i s.
  - exists []. rewrite app_nil_r. reflexivity.
  - cbn [scroll_loop].
    destruct (IH (to_byte (i + 1))
                (writeSPI (i + 1) (load_buf pat0 (buf s) (i + 1))
                   (store_buf i (load_buf pat0 (buf s) (i + 1)) s)))
      as [m Hm].
    rewrite Hm. unfold writeSPI, store_buf. cbn [stray].
    rewrite <- app_assoc. eexists. reflexivity.
Qed.

Lemma writeSPI_stray op d s : stray (writeSPI op d s) = stray s.
Proof. reflexivity. Qed.

Lemma set_pos_stray p s : stray (set_pos p s) = stray s.
Proof. reflexivity. Qed.

Lemma store_buf_stray i v s :
  stray (store_buf i v s) = stray s ++ (store A_buf (buf s) i v).2.
Proof. reflexivity. Qed.

Lemma displayChar_stray pat0 digit value dp s :
  exists m, stray (displayChar pat0 digit value dp s) = stray s ++ m.
Proof.
  unfold displayChar. rewrite writeSPI_stray, store_buf_stray.
  eexists. reflexivity.
Qed.

Lemma clear_stray s : exists m, stray (clear s) = stray s ++ m.
Proof. unfold clear. rewrite set_pos_stray. apply clear_loop_stray. Qed.

Lemma begin_stray n s : exists m, stray (begin n s) = stray s ++ m.
Proof.
  rewrite begin_unfold. unfold display, brightness, noTestMode.
  rewrite !writeSPI_stray.
  set (st := writeSPI MAX7219_REG_DECODE 0 _).
  assert (stray st = stray s) as Hst by reflexivity.
  clearbody st. destruct (clear_stray st) as [m Hm].
  rewrite Hm, Hst. exists m. reflexivity.
Qed.

Lemma write_stray pat0 ch s s' r :
  write pat0 ch s = Ok (s', r) -> exists m, stray s' = stray s ++ m.
Proof.
  unfold write. destruct (to_byte ch =? 46).
  - intros [= <- _]. rewrite writeSPI_stray, store_buf_stray.
    eexists. reflexivity.
  - destruct (autoscrolling s && (pos s =? digits s)).
    + intros [= <- _].
      destruct (scroll_loop_stray pat0 (Z.to_nat (digits s - 1)) 0 s)
        as [m Hm].
      generalize dependent (scroll_loop pat0 (Z.to_nat (digits s - 1)) 0 s).
      intros s1 Hm.
      destruct (displayChar_stray pat0 (digits s1 - 1) (to_byte ch) false s1)
        as [m' Hm'].
      rewrite Hm', Hm, <- app_assoc. eexists. reflexivity.
    + intros [= <- _].
      destruct (displayChar_stray pat0 (pos s) (to_byte ch) false
                  (set_pos (to_byte (pos s + 1)) s)) as [m Hm].
      rewrite Hm, set_pos_stray. exists m. reflexivity.
Qed.

Lemma exec_stray o s s' :
  exec o s = Ok s' -> exists m, stray s' = stray s ++ m.
Proof.
  destruct o as [n| |b| | | |x y0| | |pat0 digit value dp|pats text rj| | |pat0 ch];
    cbn [exec];
    try (intros [= <-]; exists []; rewrite app_nil_r; reflexivity).
  - intros [= <-]. apply begin_stray.
  - intros [= <-]. apply clear_stray.
  - intros [= <-]. apply displayChar_stray.
  - rewrite displayText_refines_spec. intros [= <-]. unfold displayText_spec.
    match goal with
    | |- exists m, stray (render ?p ?r ?dc ?sc ?i ?sl ?st) = _ =>
        destruct (render_stray p r dc sc sl i st) as [m Hm]
    end.
    rewrite Hm. cbn [stray log_stray]. rewrite <- app_assoc.
    eexists. reflexivity.
  - destruct (write pat0 ch s) as [[s1 r]|] eqn:Hw; [|discriminate].
    cbn [bind fst]. intros [= <-]. apply (write_stray pat0 ch s s1 r Hw).
Qed.

Lemma run_stray ops : forall s s',
  run ops s = Ok s' -> exists m, stray s' = stray s ++ m.
Proof.
  induction ops as [|o ops IH]; intros s s' Hrun.
  - injection Hrun as <-. exists []. rewrite app_nil_r. reflexivity.
  - cbn [run] in Hrun.
    destruct (exec o s) as [s0|] eqn:Ho; [|discriminate].
    cbn [bind] in Hrun.
    destruct (IH _ _ Hrun) as [m Hm]. destruct (exec_stray o s s0 Ho) as [m0 Hm0].
    rewrite Hm, Hm0, <- app_assoc. eexists. reflexivity.
Qed.

(** X15: no operation of the driver assigns the digit count, so it changes
    only where a store leaves its array: the members of the object lie in
    front of [buf], and a store at a negative index of [buf] (a [write] with
    the cursor above 127, say) overwrites them. Whatever sequence of
    operations runs on an object, begin with any argument included, if the
    monitor is at the end what it was at the start (it only grows, so no
    store of the run left its array), then the digit count at the end is the
    one at the start; on an object made by the constructor it is 4. *)
Theorem digit_count_never_changes ops : forall s s',
  run ops s = Ok s' ->
  stray s' = stray s ->
  digits s' = digits s /\
  (forall buf0, s = construct buf0 -> digits s' = 4) /\
  (forall ops1 ops2 s1,
     ops = ops1 ++ ops2 -> run ops1 s = Ok s1 ->
     stray s1 = stray s /\ digits s1 = digits s).
Proof.
  assert (forall l s s', run l s = Ok s' -> digits s' = digits s) as Hkeep.
  { induction l as [|o l IH]; intros s s' Hrun.
    - injection Hrun as <-. reflexivity.
    - cbn [run] in Hrun.
      destruct (exec o s) as [s0|] eqn:Ho; [|discriminate].
      cbn [bind] in Hrun. rewrite (IH _ _ Hrun). apply (exec_digits o s s0 Ho). }
  intros s s' Hrun Hsame.
  pose proof (Hkeep ops s s' Hrun) as Hd.
  split; [exact Hd|]. split; [intros buf0 ->; rewrite Hd; reflexivity|].
  intros ops1 ops2 s1 -> Hrun1.
  split; [|apply (Hkeep ops1 s s1 Hrun1)].
  destruct (run_stray ops1 s s1 Hrun1) as [m1 Hm1].
  assert (run ops2 s1 = Ok s') as Hrun2.
  { destruct (run_app ops1 ops2 s s' Hrun) as (s1' & Hr1 & Hr2).
    rewrite Hrun1 in Hr1. injection Hr1 as <-. exact Hr2. }
  destruct (run_stray ops2 s1 s' Hrun2) as [m2 Hm2].
  rewrite Hm2, Hm1, <- app_assoc in Hsame.
  rewrite <- (app_nil_r (stray s)) in Hsame at 2.
  apply app_inv_head in Hsame. apply app_eq_nil in Hsame.
  destruct Hsame as [-> _]. rewrite Hm1, app_nil_r. reflexivity.
Qed.

Lemma digit_count_never_changes_witness :
  exists s',
    run [OpBegin 8; OpAutoScroll; OpWrite 0 49]
        (construct [0; 0; 0; 0; 0; 0; 0; 0]) = Ok s' /\
    stray s' = [] /\
    digits s' = 4.
Proof.
  eexists. split; [vm_compute; reflexivity|]. split; [reflexivity|].
  apply (digit_count_never_changes
           [OpBegin 8; OpAutoScroll; OpWrite 0 49]
           (construct [0; 0; 0; 0; 0; 0; 0; 0])
           (mkSevSeg 4 1 true [48; 0; 0; 0; 0; 0; 0; 0]
              [(11, 8); (9, 0); (1, 0); (2, 0); (3, 0); (4, 0); (5, 0);
               (6, 0); (7, 0); (8, 0); (15, 0); (10, 15); (12, 1); (1, 48)]
              [])).
  - vm_compute. reflexivity.
  - reflexivity.
Defined.

(** X16: a second full stop changes nothing on the display. With the cursor
    at most 8, write of a full stop followed by another write of a full stop
    leaves the buffer as the first one left it, and the second call sends
    the frame of the first once more. *)
Theorem write_dot_twice_is_idempotent pat0 pat1 s :
  0 <= pos s <= 8 -> length (buf s) = 8%nat ->
  exists s1 s2 frame,
    write pat0 46 s = Ok (s1, 1) /\
    write pat1 46 s1 = Ok (s2, 1) /\
    buf s2 = buf s1 /\
    spi s1 = spi s ++ [frame] /\
    spi s2 = spi s ++ [frame; frame] /\
    pos s2 = pos s.
Proof.
  intros Hpos Hlen.
  set (p := Z.to_nat (if 0 <? pos s then pos s - 1 else 0)).
  assert (p < 8)%nat as Hp.
  { subst p. destruct (Z.ltb_spec 0 (pos s)); lia. }
  destruct (lookup_lt_is_Some_2 (buf s) p) as [old Hold]; [lia|].
  eexists. eexists. eexists.
  split; [apply (write_dot_eq pat0 46 s old); (reflexivity || assumption)|].
  split.
  - apply (write_dot_eq pat1 46 _ (to_char (Z.lor old 0x80)));
      cbn [pos buf]; try reflexivity; try assumption.
    + rewrite length_insert. exact Hlen.
    + apply list_lookup_insert_eq. fold p. lia.
  - cbn [buf spi pos]. fold p.
    rewrite list_insert_insert_eq, to_char_lor_to_char.
    rewrite to_byte_to_char, to_byte_lor_0x80.
    rewrite <- !Z.lor_assoc, Z.lor_diag.
    rewrite <- app_assoc. repeat split.
Qed.

Lemma write_dot_twice_is_idempotent_witness :
  exists s1 s2,
    write 0 46 (mkSevSeg 4 1 false [48; 2; 3; 4; 5; 6; 7; 8] [] []) = Ok (s1, 1) /\
    write 0 46 s1 = Ok (s2, 1) /\
    buf s2 = buf s1.
Proof.
  destruct (write_dot_twice_is_idempotent 0 0
              (mkSevSeg 4 1 false [48; 2; 3; 4; 5; 6; 7; 8] [] []))
    as (s1 & s2 & frame & H1 & H2 & H3 & _); [cbn; lia | reflexivity |].
  exists s1, s2. repeat split; assumption.
Defined.

(** ** Configuration leaves the display contents alone *)

(** X17: brightness, display, noDisplay, testMode, noTestMode, autoScroll,
    noAutoScroll, home and setCursor never touch what is displayed: each
    returns with the buffer, the digit count and the monitor unchanged, sends
    at most one frame, and that frame is for no digit register, so every
    digit register holds what it was last sent before the call. *)
Theorem control_ops_keep_display_contents o s :
  control_op o = true ->
  exists s' frames,
    exec o s = Ok s' /\
    buf s' = buf s /\ digits s' = digits s /\ stray s' = stray s /\
    spi s' = spi s ++ frames /\ (length frames <= 1)%nat /\
    forall r, 1 <= r <= 8 -> last_sent r (spi s') = last_sent r (spi s).
Proof.
  assert (forall op d, ~ 1 <= to_byte op <= 8 ->
            exists s' frames,
              Ok (writeSPI op d s) = Ok s' /\
              buf s' = buf s /\ digits s' = digits s /\ stray s' = stray s /\
              spi s' = spi s ++ frames /\ (length frames <= 1)%nat /\
              forall r, 1 <= r <= 8 ->
                        last_sent r (spi s') = last_sent r (spi s)) as Hctl.
  { intros op d Hop. eexists. eexists. split; [reflexivity|].
    rewrite writeSPI_eq. cbn [buf digits stray spi].
    split; [reflexivity|]. split; [reflexivity|]. split; [reflexivity|].
    split; [reflexivity|]. split; [cbn; lia|].
    intros r Hr. rewrite last_sent_snoc.
    destruct (Z.eqb_spec (to_byte op) r); [lia | reflexivity]. }
  assert (forall s0, buf s0 = buf s -> digits s0 = digits s ->
            stray s0 = stray s -> spi s0 = spi s ->
            exists s' frames,
              Ok s0 = Ok s' /\
              buf s' = buf s /\ digits s' = digits s /\ stray s' = stray s /\
              spi s' = spi s ++ frames /\ (length frames <= 1)%nat /\
              forall r, 1 <= r <= 8 ->
                        last_sent r (spi s') = last_sent r (spi s)) as Hflag.
  { intros s0 Hb Hd Hs Hf. exists s0, []. rewrite app_nil_r, Hf.
    split; [reflexivity|]. split; [exact Hb|]. split; [exact Hd|].
    split; [exact Hs|]. split; [reflexivity|]. split; [cbn; lia|].
    intros r Hr. reflexivity. }
  destruct o; cbn [control_op exec]; intros Hc; try discriminate Hc.
  - unfold brightness. apply Hctl. cbv -[Z.le]. lia.
  - apply Hctl. cbv -[Z.le]. lia.
  - apply Hctl. cbv -[Z.le]. lia.
  - apply Hflag; reflexivity.
  - apply Hflag; reflexivity.
  - apply Hflag; reflexivity.
  - apply Hflag; reflexivity.
  - apply Hctl. cbv -[Z.le]. lia.
  - apply Hctl. cbv -[Z.le]. lia.
Qed.

Lemma control_ops_keep_display_contents_witness :
  exists s',
    exec (OpBrightness 3)
      (mkSevSeg 4 1 false [48; 0; 0; 0; 0; 0; 0; 0] [(1, 48)] []) = Ok s' /\
    buf s' = [48; 0; 0; 0; 0; 0; 0; 0] /\
    last_sent 1 (spi s') = Some 48.
Proof.
  destruct (control_ops_keep_display_contents (OpBrightness 3)
              (mkSevSeg 4 1 false [48; 0; 0; 0; 0; 0; 0; 0] [(1, 48)] []))
    as (s' & frames & H1 & H2 & _ & _ & _ & _ & H3); [reflexivity|].
  exists s'. split; [exact H1|]. split; [exact H2|].
  rewrite H3 by lia. reflexivity.
Defined.
